(** * whc001: the filtering and aggregation core of [app.js]

    A shallow embedding of the data layer of [src/app.js] (record
    normalisation, selection state, filter, stacked series, danger-event
    series, hierarchy rollup, playback tick) and the properties the
    specification states about it.

    Modelling conventions.
    - A JS string is a [string]: a sequence of code units below 256.
    - A JS integer-valued number (a year, a count) is a [Z]; a coordinate is
      a [number], which keeps the non-finite values apart.
    - A field that may be [undefined] or [null] is an [option].
    - A JS object used as a map from property names to numbers is a
      [gmap string value]; own properties only.
    - A JS [Map] built by [d3.rollup] is an association list in insertion
      order.
    - Module-level variables ([state], [yearExtent], the colour-scale
      domains) are passed explicitly. *)

From Stdlib Require Import ZArith String Ascii List Lia QArith Sorted.
From stdpp Require Import gmap strings list fin_maps.

Set Warnings "-register-all".

Local Open Scope Z_scope.
Local Open Scope string_scope.

(** ** Strings and the regular expressions of the parsers *)

Module Text.

Definition code (c : ascii) : nat := nat_of_ascii c.

(** [\d] *)
Definition is_digit (c : ascii) : bool :=
  (48 <=? code c)%nat && (code c <=? 57)%nat.

(** [[A-Z]] *)
Definition is_upper (c : ascii) : bool :=
  (65 <=? code c)%nat && (code c <=? 90)%nat.

(** [\s], on code units below 256: TAB, LF, VT, FF, CR, SP, NBSP. *)
Definition is_space (c : ascii) : bool :=
  ((9 <=? code c)%nat && (code c <=? 13)%nat)
  || (code c =? 32)%nat || (code c =? 160)%nat.

(** [[ivx]] under the [i] flag. *)
Definition is_ivx (c : ascii) : bool :=
  match c with
  | "i" | "v" | "x" | "I" | "V" | "X" => true
  | _ => false
  end%char.

(** [String.prototype.toLowerCase] on one code unit below 256:
    A-Z and the accented capitals 0xC0-0xDE, except the sign 0xD7. *)
Definition lower_char (c : ascii) : ascii :=
  if is_upper c
     || ((192 <=? code c)%nat && (code c <=? 222)%nat
         && negb (code c =? 215)%nat)
  then ascii_of_nat (code c + 32)
  else c.

Fixpoint toLowerCase (s : string) : string :=
  match s with
  | EmptyString => EmptyString
  | String c s' => String (lower_char c) (toLowerCase s')
  end.

(** [Array.prototype.join]. *)
Fixpoint join (sep : string) (l : list string) : string :=
  match l with
  | [] => ""
  | [x] => x
  | x :: l' => x ++ sep ++ join sep l'
  end.

(** [String.prototype.includes]. *)
Fixpoint includes (hay needle : string) : bool :=
  String.prefix needle hay ||
  match hay with
  | EmptyString => false
  | String _ hay' => includes hay' needle
  end.

Definition digit_val (c : ascii) : Z := Z.of_nat (code c - 48).

(** Unary plus on a string of decimal digits. *)
Definition to_number (s : string) : Z :=
  fold_left (fun acc c => 10 * acc + digit_val c) (list_ascii_of_string s) 0.

(** [\d{4}] anchored at the start of [s]: the four digits, if any. *)
Definition digits4_here (s : string) : option string :=
  match s with
  | String a (String b (String c (String d _))) =>
      if is_digit a && is_digit b && is_digit c && is_digit d
      then Some (String a (String b (String c (String d EmptyString))))
      else None
  | _ => None
  end.

(** [s.match(/\d{4}/)]: the leftmost four consecutive digits. *)
Fixpoint match_d4 (s : string) : option string :=
  match digits4_here s with
  | Some m => Some m
  | None =>
      match s with
      | EmptyString => None
      | String _ s' => match_d4 s'
      end
  end.

(** The longest prefix of [s] made of characters in the class [p],
    and what follows it. *)
Fixpoint span (p : ascii -> bool) (s : string) : string * string :=
  match s with
  | String c s' =>
      if p c then let '(r, rest) := span p s' in (String c r, rest)
      else (EmptyString, s)
  | EmptyString => (EmptyString, EmptyString)
  end.

(** [\(([ivx]+)\)] anchored at the start of [s], flag [i]: the whole
    match.  The class excludes the closing parenthesis, so the greedy
    run is the only candidate. *)
Definition criterion_here (s : string) : option string :=
  match s with
  | String "("%char s1 =>
      match span is_ivx s1 with
      | (String c r, String ")"%char _) => Some ("(" ++ String c r ++ ")")
      | _ => None
      end
  | _ => None
  end.

(** [([A-Z])\s*(\d{4})] anchored at the start of [s]: the two groups
    and the length of the match.  White space and digits are disjoint,
    so the greedy run of [\s*] is the only candidate. *)
Definition danger_here (s : string) : option (string * string * nat) :=
  match s with
  | String c s1 =>
      if is_upper c then
        let '(ws, s2) := span is_space s1 in
        match digits4_here s2 with
        | Some d => Some (String c EmptyString, d, (1 + String.length ws + 4)%nat)
        | None => None
        end
      else None
  | EmptyString => None
  end.

(** A global scan ([g] flag): try the anchored pattern at every position
    from the left; after a match of length [n] resume right behind it
    ([skip] counts the characters of the current match still to pass). *)
Fixpoint scan {A} (here : string -> option (A * nat)) (skip : nat)
    (s : string) : list A :=
  match s with
  | EmptyString => []
  | String _ s' =>
      match skip with
      | S k => scan here k s'
      | O =>
          match here s with
          | Some (a, n) => a :: scan here (n - 1) s'
          | None => scan here 0 s'
          end
      end
  end.

(** [m.replace(/[()]/g, '')]. *)
Fixpoint strip_parens (s : string) : string :=
  match s with
  | EmptyString => EmptyString
  | String c s' =>
      match c with
      | "("%char | ")"%char => strip_parens s'
      | _ => String c (strip_parens s')
      end
  end.

End Text.

(** ** Data model *)

(** A JS number as far as [Number.isFinite] tells values apart. *)
Inductive number : Type :=
| Finite (q : Q)
| PosInfinity
| NegInfinity
| NaN.

(** [Number.isFinite] on a coordinate that may be missing. *)
Definition isFinite (v : option number) : bool :=
  match v with
  | Some (Finite _) => true
  | _ => false
  end.

Record Coordinates : Type := { c_lat : option number; c_lon : option number }.

(** A record of the raw payload, with the fields the engine reads.  The
    identifier, description, image and ISO fields are passed through
    untouched by [formatSite] and are left out.  The date, criteria and
    danger-list fields are free text; the danger flag is held as the text
    [String(d.danger)] compares. *)
Record RawSite : Type := {
  name_en : string;
  raw_region : option string;
  date_inscribed : option string;
  secondary_dates : option string;
  criteria_txt : option string;
  states_names : option (list string);
  danger_list : option string;
  raw_category : option string;
  coordinates : option Coordinates;
  raw_danger : option string
}.

Record DangerEvent : Type := { ev_type : string; ev_year : Z }.

Record Site : Type := {
  name : string;
  region : string;
  year : Z;
  category : string;
  criteria : list string;
  lat : option number;
  lon : option number;
  countries : list string;
  statesText : string;
  danger : bool;
  dangerEvents : list DangerEvent
}.

(** ** Record normaliser: [parseYear], [parseCriteria], [parseDangerList],
    [formatSite] and the pipeline of [init] *)

(** A string is falsy when it is missing or empty. *)
Definition truthy (v : option string) : bool :=
  match v with
  | Some (String _ _) => true
  | _ => false
  end.

Definition parseYear (value : option string) : option Z :=
  if negb (truthy value) then None
  else
    match Text.match_d4 (default "" value) with
    | Some m => Some (Text.to_number m)
    | None => None
    end.

Definition parseCriteria (text : option string) : list string :=
  if negb (truthy text) then []
  else
    let matches :=
      Text.scan (fun s => (fun m => (m, String.length m)) <$> Text.criterion_here s)
        0 (default "" text) in
    map (fun m => Text.toLowerCase (Text.strip_parens m)) matches.

Definition parseDangerList (text : option string) : list DangerEvent :=
  if negb (truthy text) then []
  else
    Text.scan
      (fun s =>
         (fun '(t, d, n) => ({| ev_type := t; ev_year := Text.to_number d |}, n))
           <$> Text.danger_here s)
      0 (default "" text).

(** [a ?? b] *)
Definition nullish {A} (a b : option A) : option A :=
  match a with
  | Some x => Some x
  | None => b
  end.

(** The value [formatSite] hands to [parseYear]. *)
Definition date_text (d : RawSite) : option string :=
  nullish (date_inscribed d) (secondary_dates d).

Definition known_categories : list string := ["Cultural"; "Natural"; "Mixed"].

Definition formatSite (d : RawSite) : option Site :=
  match parseYear (date_text d) with
  | None => None
  | Some y =>
      if (y =? 0)%Z then None
      else
        let criteria := parseCriteria (criteria_txt d) in
        let countries :=
          match states_names d with
          | Some (c :: l) => c :: l
          | _ => ["Unspecified country"]
          end in
        let dangerEvents := parseDangerList (danger_list d) in
        let category :=
          match raw_category d with
          | Some c => if bool_decide (c ∈ known_categories) then c else "Other"
          | None => "Other"
          end in
        Some {|
          name := name_en d;
          region := default "Unspecified region" (raw_region d);
          year := y;
          category := category;
          criteria := criteria;
          lat := coordinates d ≫= c_lat;
          lon := coordinates d ≫= c_lon;
          countries := countries;
          statesText := Text.join ", " countries;
          danger :=
            bool_decide
              (Text.toLowerCase (default "undefined" (raw_danger d)) = "true");
          dangerEvents := dangerEvents
        |}
  end.

(** The callback of [.filter] in [init].  A year is always a finite
    number here, so [Number.isFinite(d.year)] is [true]. *)
Definition valid_site (d : option Site) : bool :=
  match d with
  | Some s => isFinite (lat s) && isFinite (lon s) && true
  | None => false
  end.

(** [.sort((a, b) => d3.ascending(a.year, b.year))]: a stable sort;
    [s] goes in front of the sorted tail, behind the strictly earlier
    years only. *)
Fixpoint insert_by_year (s : Site) (l : list Site) : list Site :=
  match l with
  | [] => [s]
  | t :: l' =>
      if (year t <? year s)%Z then t :: insert_by_year s l' else s :: t :: l'
  end.

Definition sort_by_year (l : list Site) : list Site :=
  foldr insert_by_year [] l.

(** The site list computed by [init]. *)
Definition init_sites (rawSites : list RawSite) : list Site :=
  sort_by_year
    (omap id (filter (fun d => valid_site d = true) (map formatSite rawSites))).

(** [Array.from(new Set(values))]: the values in the order of their
    first occurrence. *)
Definition unique (values : list string) : list string :=
  foldl (fun seen v => if bool_decide (v ∈ seen) then seen else (seen ++ [v])%list)
    [] values.

(** [.sort()] on strings: by code units. *)
Fixpoint insert_string (v : string) (l : list string) : list string :=
  match l with
  | [] => [v]
  | w :: l' => if String.ltb w v then w :: insert_string v l' else v :: w :: l'
  end.

Definition sort_strings (l : list string) : list string :=
  foldr insert_string [] l.

(** [uniqueRegions] of [init], which becomes [regionColor.domain()]. *)
Definition uniqueRegions (sites : list Site) : list string :=
  sort_strings (unique (map region sites)).

(** [d3.extent(sites, d => d.year)]; [None] stands for the pair of
    [undefined] returned on an empty list. *)
Definition extent (l : list Z) : option (Z * Z) :=
  match l with
  | [] => None
  | y :: l' => Some (foldl Z.min y l', foldl Z.max y l')
  end.

(** ** Selection state *)

Inductive ViewMode : Type := ByCategory | ByRegion.

Inductive StandardMode : Type := OR | AND.

(** The object stored in [state.sunburstSelection]. *)
Record Selection : Type := {
  sel_region : option string;
  sel_country : option string;
  sel_category : option string
}.

Module State.

Record t : Type := {
  year : Z;
  viewMode : ViewMode;
  selectedStandards : gset string;
  standardMode : StandardMode;
  searchTerm : string;
  dangerOnly : bool;
  showDangerEvents : bool;
  brushRange : option (Z * Z);
  playing : bool;
  sunburstSelection : option Selection
}.

Definition with_year (y : Z) (st : t) : t :=
  {| year := y; viewMode := viewMode st;
     selectedStandards := selectedStandards st;
     standardMode := standardMode st; searchTerm := searchTerm st;
     dangerOnly := dangerOnly st; showDangerEvents := showDangerEvents st;
     brushRange := brushRange st; playing := playing st;
     sunburstSelection := sunburstSelection st |}.

Definition with_standardMode (m : StandardMode) (st : t) : t :=
  {| year := year st; viewMode := viewMode st;
     selectedStandards := selectedStandards st;
     standardMode := m; searchTerm := searchTerm st;
     dangerOnly := dangerOnly st; showDangerEvents := showDangerEvents st;
     brushRange := brushRange st; playing := playing st;
     sunburstSelection := sunburstSelection st |}.

Definition with_playing (b : bool) (st : t) : t :=
  {| year := year st; viewMode := viewMode st;
     selectedStandards := selectedStandards st;
     standardMode := standardMode st; searchTerm := searchTerm st;
     dangerOnly := dangerOnly st; showDangerEvents := showDangerEvents st;
     brushRange := brushRange st; playing := b;
     sunburstSelection := sunburstSelection st |}.

Definition with_sunburstSelection (sel : option Selection) (st : t) : t :=
  {| year := year st; viewMode := viewMode st;
     selectedStandards := selectedStandards st;
     standardMode := standardMode st; searchTerm := searchTerm st;
     dangerOnly := dangerOnly st; showDangerEvents := showDangerEvents st;
     brushRange := brushRange st; playing := playing st;
     sunburstSelection := sel |}.

End State.

(** The [input] listener of the year slider, given the number read from
    [event.target.value]. *)
Definition on_yearSlider_input (value : Z) (st : State.t) : State.t :=
  State.with_year value st.

(** The [click] listener of the criteria-mode button. *)
Definition on_criteriaMode_click (st : State.t) : State.t :=
  State.with_standardMode
    (match State.standardMode st with OR => AND | AND => OR end) st.

(** [handleSunburstClick], given the names on the path from below the
    root to the clicked node. *)
Definition handleSunburstClick (path : list string) (st : State.t) : State.t :=
  let selection :=
    {| sel_region := path !! 0%nat;
       sel_country := path !! 1%nat;
       sel_category := path !! 2%nat |} in
  let same :=
    match State.sunburstSelection st with
    | Some cur =>
        bool_decide (sel_region cur = sel_region selection)
        && bool_decide (sel_country cur = sel_country selection)
        && bool_decide (sel_category cur = sel_category selection)
    | None => false
    end in
  State.with_sunburstSelection (if same then None else Some selection) st.

(** ** Playback: [togglePlay] and the interval callback *)

(** The selection state together with the interval timer: [timer] tells
    whether the interval set by [togglePlay] is active. *)
Record Player : Type := { p_state : State.t; p_timer : bool }.

(** The body of the [setInterval] callback. *)
Definition tick (yearExtent : Z * Z) (st : State.t) : State.t :=
  if (State.year st >=? yearExtent.2)%Z
  then State.with_year yearExtent.1 st
  else State.with_year (State.year st + 1) st.

Definition togglePlay (p : Player) : Player :=
  let st := State.with_playing (negb (State.playing (p_state p))) (p_state p) in
  if State.playing st
  then {| p_state := st; p_timer := true |}
  else {| p_state := st; p_timer := false |}.

(** The timer fires: the callback runs only while the interval is set. *)
Definition on_interval (yearExtent : Z * Z) (p : Player) : Player :=
  if p_timer p
  then {| p_state := tick yearExtent (p_state p); p_timer := true |}
  else p.

(** ** Filter engine: [getFilteredSites] *)

(** The callback of [sites.filter]; every [if (...) return false] of the
    source is one line. *)
Definition passes (st : State.t) (site : Site) : bool :=
  if (State.year st <? year site)%Z then false else
  if State.dangerOnly st && negb (danger site) then false else
  if truthy (Some (State.searchTerm st))
     && negb (Text.includes
                (Text.toLowerCase (name site ++ " " ++ statesText site))
                (State.searchTerm st))
  then false else
  if bool_decide (0 < size (State.selectedStandards st))%nat
     && negb (match State.standardMode st with
              | OR =>
                  existsb (fun c => bool_decide (c ∈ State.selectedStandards st))
                    (criteria site)
              | AND =>
                  forallb (fun c => bool_decide (c ∈ criteria site))
                    (elements (State.selectedStandards st))
              end)
  then false else
  match State.sunburstSelection st with
  | Some sel =>
      if truthy (sel_region sel)
         && negb (bool_decide (Some (region site) = sel_region sel))
      then false else
      if truthy (sel_country sel)
         && negb (bool_decide (default "" (sel_country sel) ∈ countries site))
      then false else
      if truthy (sel_category sel)
         && negb (bool_decide (Some (category site) = sel_category sel))
      then false else true
  | None => true
  end.

Definition getFilteredSites (sites : list Site) (st : State.t) : list Site :=
  List.filter (passes st) sites.

(** ** Aggregation engine *)

(** [d3.range(start, stop)] with the default step 1: empty when
    [stop <= start]. *)
Definition d3_range (start stop : Z) : list Z :=
  map (fun i => start + Z.of_nat i) (seq 0 (Z.to_nat (stop - start))).

(** [new Map(array.map((d, i) => [key(d), i]))]: the position of the
    element with a given key; a later entry with the same key replaces an
    earlier one. *)
Definition index_by {K B} `{Countable K} (key : B -> K) (array : list B)
    : gmap K nat :=
  foldl (fun m '(i, d) => <[key d := i]> m) ∅ (imap (fun i d => (i, d)) array).

(** *** Stacked series: [prepareStackData] *)

(** The numbers a year record holds: an integer, or [NaN] once
    [undefined] has been added to. *)
Inductive value : Type :=
| VNum (n : Z)
| VNaN.

#[global] Instance value_eq_dec : EqDecision value.
Proof. solve_decision. Defined.

#[global] Instance value_countable : Countable value.
Proof.
  refine (inj_countable'
            (fun v => match v with VNum n => Some n | VNaN => None end)
            (fun o => match o with Some n => VNum n | None => VNaN end) _).
  intros []; reflexivity.
Defined.

(** [a + b] on numbers. *)
Definition plus (a b : value) : value :=
  match a, b with
  | VNum x, VNum y => VNum (x + y)
  | _, _ => VNaN
  end.

(** Reading a property for arithmetic: a missing property is
    [undefined], which converts to [NaN]. *)
Definition num_of (p : option value) : value := default VNaN p.

(** [categoryColor.domain()] *)
Definition categoryDomain : list string :=
  ["Cultural"; "Natural"; "Mixed"; "Other"].

(** [{ year }] followed by [record[key] = 0] for each key, in order. *)
Definition blank_record (keys : list string) (y : Z) : gmap string value :=
  foldl (fun record key => <[key := VNum 0]> record) {["year" := VNum y]} keys.

(** [new Map(yearRecords.map((record) => [record.year, record]))]: the
    records are shared with [yearRecords], so the map holds the position
    of each record in that array. *)
Definition year_map (yearRecords : list (gmap string value))
    : gmap (option value) nat :=
  index_by (fun record => record !! "year") yearRecords.

Definition groupingKey (mode : ViewMode) (site : Site) : string :=
  match mode with
  | ByCategory => category site
  | ByRegion => region site
  end.

(** The callback of [data.forEach]. *)
Definition count_site (mode : ViewMode) (yearMap : gmap (option value) nat)
    (yearRecords : list (gmap string value)) (site : Site)
    : list (gmap string value) :=
  match yearMap !! Some (VNum (year site)) with
  | None => yearRecords
  | Some i =>
      alter
        (fun record =>
           <[groupingKey mode site :=
               plus (num_of (record !! groupingKey mode site)) (VNum 1)]> record)
        i yearRecords
  end.

(** [keys.reduce((sum, key) => sum + record[key], 0)] *)
Definition sum_keys (keys : list string) (record : gmap string value) : value :=
  foldl (fun sum key => plus sum (num_of (record !! key))) (VNum 0) keys.

Definition prepareStackData (mode : ViewMode) (regionDomain : list string)
    (yearExtent : Z * Z) (data : list Site)
    : list string * list (gmap string value) :=
  let keys :=
    match mode with
    | ByCategory => categoryDomain
    | ByRegion => regionDomain
    end in
  let yearRange := d3_range yearExtent.1 (yearExtent.2 + 1) in
  let yearRecords := map (blank_record keys) yearRange in
  let yearMap := year_map yearRecords in
  let counted := foldl (count_site mode yearMap) yearRecords data in
  let totalled :=
    map (fun record => <["total" := sum_keys keys record]> record) counted in
  (keys, totalled).

(** *** Danger-event series: [buildDangerSeries] *)

(** A point of a series; [None] is the [null] the line generator skips. *)
Record Point : Type := { pt_year : Z; pt_value : option Z }.

(** [p.value += 1]: [null] converts to 0. *)
Definition bump (p : Point) : Point :=
  {| pt_year := pt_year p; pt_value := Some (default 0 (pt_value p) + 1) |}.

(** [new Map(base.map((d, i) => [d.year, i]))] *)
Definition year_index (base : list Point) : gmap Z nat :=
  index_by pt_year base.

(** The callback of [site.dangerEvents.forEach], on the pair of series. *)
Definition count_event (cursor : Z) (yearIndex : gmap Z nat)
    (series : list Point * list Point) (evt : DangerEvent)
    : list Point * list Point :=
  match yearIndex !! ev_year evt with
  | None => series
  | Some idx =>
      if (cursor <? ev_year evt)%Z then series
      else
        let seriesY :=
          if bool_decide (ev_type evt = "Y") then alter bump idx series.1
          else series.1 in
        let seriesR :=
          if bool_decide (ev_type evt = "R") then alter bump idx series.2
          else series.2 in
        (seriesY, seriesR)
  end.

Definition buildDangerSeries (yearExtent : Z * Z) (cursor : Z)
    (data : list Site) : list Point * list Point :=
  let yearRange := d3_range yearExtent.1 (yearExtent.2 + 1) in
  let base :=
    map (fun y =>
           {| pt_year := y;
              pt_value := if (y <=? cursor)%Z then Some 0 else None |})
      yearRange in
  let yearIndex := year_index base in
  foldl
    (fun series site => foldl (count_event cursor yearIndex) series (dangerEvents site))
    (base, base) data.

(** *** Hierarchy rollup: [buildHierarchy] and [rollupToChildren] *)

(** The insertion of [d3.group]: push onto the group of the key, or
    open a new group behind the others. *)
Fixpoint group_push {A} (k : string) (v : A) (groups : list (string * list A))
    : list (string * list A) :=
  match groups with
  | [] => [(k, [v])]
  | (k', vs) :: rest =>
      if decide (k = k') then (k', (vs ++ [v])%list) :: rest
      else (k', vs) :: group_push k v rest
  end.

Definition d3_group {A} (keyof : A -> string) (values : list A)
    : list (string * list A) :=
  foldl (fun groups v => group_push (keyof v) v groups) [] values.

(** A nested [Map] as [d3.rollup] returns it: a reduced value, or a map
    from keys to nested results. *)
Inductive Rollup : Type :=
| RValue (n : nat)
| RMap (entries : list (string * Rollup)).

(** [d3.rollup(values, reduce, keyof)]: one level of keys. *)
Definition d3_rollup {A} (reduce : list A -> Rollup) (keyof : A -> string)
    (values : list A) : Rollup :=
  RMap (map (fun '(k, vs) => (k, reduce vs)) (d3_group keyof values)).

(** [d3.rollup(values, reduce, key1, key2)]: two levels of keys. *)
Definition d3_rollup2 {A} (reduce : list A -> Rollup) (key1 key2 : A -> string)
    (values : list A) : Rollup :=
  d3_rollup (d3_rollup reduce key2) key1 values.

Inductive HierarchyNode : Type :=
| Internal (name : string) (children : list HierarchyNode)
| Leaf (name : string) (value : nat).

Fixpoint rollupToChildren (m : Rollup) : list HierarchyNode :=
  match m with
  | RValue _ => []
  | RMap entries =>
      map (fun '(key, v) =>
             match v with
             | RMap _ => Internal key (rollupToChildren v)
             | RValue n => Leaf key n
             end)
        entries
  end.

(** [{ ...site, country }] *)
Definition site_countries (site : Site) : list (Site * string) :=
  map (fun country => (site, country)) (countries site).

Definition buildHierarchy (data : list Site) : HierarchyNode :=
  let nested :=
    d3_rollup2
      (fun sitesByCountry =>
         d3_rollup (fun sitesByCategory => RValue (length sitesByCategory))
           (fun sc => category sc.1) sitesByCountry)
      (fun sc => region sc.1) (fun sc => sc.2)
      (flat_map site_countries data) in
  Internal "World" (rollupToChildren nested).

(** The sum of the leaf values below a node. *)
Fixpoint leaf_sum (node : HierarchyNode) : nat :=
  match node with
  | Leaf _ v => v
  | Internal _ children => sum_list (map leaf_sum children)
  end.

(** ** Further listeners and views *)

(** The [state] object literal, with the year [init] stores in it. *)
Definition initial_state (yearMax : Z) : State.t :=
  {| State.year := yearMax; State.viewMode := ByCategory;
     State.selectedStandards := ∅; State.standardMode := OR;
     State.searchTerm := ""; State.dangerOnly := false;
     State.showDangerEvents := true; State.brushRange := None;
     State.playing := false; State.sunburstSelection := None |}.

Definition with_selectedStandards (selected : gset string) (st : State.t)
    : State.t :=
  {| State.year := State.year st; State.viewMode := State.viewMode st;
     State.selectedStandards := selected;
     State.standardMode := State.standardMode st;
     State.searchTerm := State.searchTerm st;
     State.dangerOnly := State.dangerOnly st;
     State.showDangerEvents := State.showDangerEvents st;
     State.brushRange := State.brushRange st;
     State.playing := State.playing st;
     State.sunburstSelection := State.sunburstSelection st |}.


Definition with_dangerOnly (b : bool) (st : State.t) : State.t :=
  {| State.year := State.year st; State.viewMode := State.viewMode st;
     State.selectedStandards := State.selectedStandards st;
     State.standardMode := State.standardMode st;
     State.searchTerm := State.searchTerm st;
     State.dangerOnly := b;
     State.showDangerEvents := State.showDangerEvents st;
     State.brushRange := State.brushRange st;
     State.playing := State.playing st;
     State.sunburstSelection := State.sunburstSelection st |}.

(** The [change] listener of a criteria check box. *)
Definition on_criterion_change (checked : bool) (code : string)
    (st : State.t) : State.t :=
  if checked
  then with_selectedStandards ({[code]} ∪ State.selectedStandards st) st
  else with_selectedStandards (State.selectedStandards st ∖ {[code]}) st.

(** [String.prototype.trim], on code units below 256. *)
Fixpoint trim_start (s : string) : string :=
  match s with
  | EmptyString => EmptyString
  | String c s' => if Text.is_space c then trim_start s' else s
  end.

Fixpoint trim_end (s : string) : string :=
  match s with
  | EmptyString => EmptyString
  | String c s' =>
      match trim_end s' with
      | EmptyString => if Text.is_space c then EmptyString else String c EmptyString
      | String c' r => String c (String c' r)
      end
  end.

Definition trim (s : string) : string := trim_end (trim_start s).


(** The [change] listener of the danger-only check box. *)
Definition on_dangerOnly_change (checked : bool) (st : State.t) : State.t :=
  with_dangerOnly checked st.

(** The [click] listener of the breadcrumb. *)
Definition on_breadcrumb_click (st : State.t) : State.t :=
  State.with_sunburstSelection None st.

(** [matchesSunburstSelection], given the names on the path from below
    the root to the node. *)
Definition matchesSunburstSelection (path : list string) (st : State.t) : bool :=
  match State.sunburstSelection st with
  | None => false
  | Some sel =>
      if truthy (sel_category sel) then
        bool_decide (path !! 0%nat = sel_region sel)
        && bool_decide (path !! 1%nat = sel_country sel)
        && bool_decide (path !! 2%nat = sel_category sel)
      else if truthy (sel_country sel) then
        bool_decide (path !! 0%nat = sel_region sel)
        && bool_decide (path !! 1%nat = sel_country sel)
      else bool_decide (path !! 0%nat = sel_region sel)
  end.

(** [isInBrushRange] *)
Definition isInBrushRange (y : Z) (st : State.t) : bool :=
  match State.brushRange st with
  | None => false
  | Some (lo, hi) => (lo <=? y)%Z && (y <=? hi)%Z
  end.

(** The three numbers [updateSummary] shows: sites, countries, sites in
    danger. *)
Definition updateSummary (data : list Site) : nat * nat * nat :=
  let countries : gset string :=
    foldl (fun set site => foldl (fun set c => {[c]} ∪ set) set (countries site))
      ∅ data in
  (length data, size countries, length (List.filter danger data)).

(** The option list of [setupSearchOptions]. *)
Definition setupSearchOptions (sites : list Site) : list string :=
  sort_strings
    (unique (flat_map (fun site => name site :: countries site) sites)).

(** *** The interval timers behind [togglePlay] *)

(** The selection state with the timers of the page: the identifiers of
    the intervals that are set, the value of [playTimer], and the next
    identifier [setInterval] hands out. *)
Record Scheduler : Type := {
  sch_state : State.t;
  sch_active : gset nat;
  sch_playTimer : option nat;
  sch_next : nat
}.

(** What can happen to the scheduler: a click on the play button, or the
    interval with the given identifier coming due. *)
Inductive SchedulerEvent : Type :=
| PlayClick
| IntervalDue (id : nat).

(** [togglePlay] with [setInterval] and [clearInterval] written out. *)
Definition sch_togglePlay (s : Scheduler) : Scheduler :=
  let st :=
    State.with_playing (negb (State.playing (sch_state s))) (sch_state s) in
  if State.playing st
  then {| sch_state := st;
          sch_active := {[sch_next s]} ∪ sch_active s;
          sch_playTimer := Some (sch_next s);
          sch_next := S (sch_next s) |}
  else {| sch_state := st;
          sch_active :=
            match sch_playTimer s with
            | Some id => sch_active s ∖ {[id]}
            | None => sch_active s
            end;
          sch_playTimer := sch_playTimer s;
          sch_next := sch_next s |}.

(** An interval comes due: its callback runs if the interval is set. *)
Definition sch_due (yearExtent : Z * Z) (id : nat) (s : Scheduler) : Scheduler :=
  if bool_decide (id ∈ sch_active s)
  then {| sch_state := tick yearExtent (sch_state s);
          sch_active := sch_active s;
          sch_playTimer := sch_playTimer s;
          sch_next := sch_next s |}
  else s.

Definition sch_step (yearExtent : Z * Z) (s : Scheduler) (ev : SchedulerEvent)
    : Scheduler :=
  match ev with
  | PlayClick => sch_togglePlay s
  | IntervalDue id => sch_due yearExtent id s
  end.

(** The scheduler when [init] has run: stopped, no interval set. *)
Definition sch_initial (yearExtent : Z * Z) : Scheduler :=
  {| sch_state := initial_state yearExtent.2; sch_active := ∅;
     sch_playTimer := None; sch_next := 0 |}.

(** ** The specification's wording, for comparison with the code *)

Module Spec.

(** The ten criteria codes: [Object.keys(criteriaDefinitions)]. *)
Definition criteriaOrder : list string :=
  ["i"; "ii"; "iii"; "iv"; "v"; "vi"; "vii"; "viii"; "ix"; "x"].

(** The first run of exactly four digits: the first maximal block of
    digits whose length is four.  [run] holds the digits of the block
    being read, latest first. *)
Fixpoint first_run4 (run : list ascii) (s : string) : option string :=
  match s with
  | EmptyString =>
      if decide (length run = 4%nat)
      then Some (string_of_list_ascii (rev run)) else None
  | String c s' =>
      if Text.is_digit c then first_run4 (c :: run) s'
      else if decide (length run = 4%nat)
           then Some (string_of_list_ascii (rev run))
           else first_run4 [] s'
  end.

(** A record the specification keeps: finite latitude and longitude
    and a date text with a run of exactly four digits. *)
Definition kept (d : RawSite) : Prop :=
  isFinite (coordinates d ≫= c_lat) = true
  ∧ isFinite (coordinates d ≫= c_lon) = true
  ∧ is_Some (first_run4 [] (default "" (date_text d))).

(** [setCursorYear(y)] as specified: clamp into the extent. *)
Definition clamp (yearExtent : Z * Z) (y : Z) : Z :=
  Z.max yearExtent.1 (Z.min yearExtent.2 y).

(** A drill selection with the deeper fields dropped below the first
    unset level. *)
Definition prune (sel : Selection) : Selection :=
  if truthy (sel_region sel) then
    if truthy (sel_country sel) then sel
    else {| sel_region := sel_region sel; sel_country := None;
            sel_category := None |}
  else {| sel_region := None; sel_country := None; sel_category := None |}.

End Spec.

(** ** Derived notions used in the statements *)

(** What [init] makes of one raw record: its site, or nothing when the
    record is dropped. *)
Definition kept_site (d : RawSite) : option Site :=
  match formatSite d with
  | Some s => if valid_site (Some s) then Some s else None
  | None => None
  end.

(** The total size of the groups of a [d3.group] result. *)
Definition group_sizes {A} (groups : list (string * list A)) : nat :=
  sum_list (map (fun g => length g.2) groups).

(** [map.get(k)] on an association list. *)
Definition pick {A} (k : string) (entries : list (string * A)) : option A :=
  snd <$> List.find (fun e => bool_decide (e.1 = k)) entries.

Definition node_name (node : HierarchyNode) : string :=
  match node with
  | Internal k _ => k
  | Leaf k _ => k
  end.

(** The first child of a node with the given name. *)
Definition child (k : string) (node : HierarchyNode) : option HierarchyNode :=
  match node with
  | Internal _ children =>
      List.find (fun c => bool_decide (node_name c = k)) children
  | Leaf _ _ => None
  end.

(** The value of the leaf below region [r], country [c], category [k]. *)
Definition leaf_at (r c k : string) (root : HierarchyNode) : option nat :=
  match child r root with
  | Some region_node =>
      match child c region_node with
      | Some country_node =>
          match child k country_node with
          | Some (Leaf _ v) => Some v
          | _ => None
          end
      | None => None
      end
  | None => None
  end.

(** The (site, country) pairs of the data with region [r], country [c]
    and category [k]. *)
Definition pairs_at (r c k : string) (data : list Site) : list (Site * string) :=
  List.filter (fun sc => bool_decide (category sc.1 = k))
    (List.filter (fun sc => bool_decide (sc.2 = c))
       (List.filter (fun sc => bool_decide (region sc.1 = r))
          (flat_map site_countries data))).

(** The node made of one entry of the category level. *)
Definition category_node (k : string) (vs : list (Site * string)) : HierarchyNode :=
  Leaf k (length vs).

(** The node made of one entry of the country level. *)
Definition country_node (c : string) (vs : list (Site * string)) : HierarchyNode :=
  Internal c
    (map (fun '(k, g) => category_node k g)
       (d3_group (fun sc => category sc.1) vs)).

(** The node made of one entry of the region level. *)
Definition region_node (r : string) (vs : list (Site * string)) : HierarchyNode :=
  Internal r
    (map (fun '(c, g) => country_node c g) (d3_group (fun sc => sc.2) vs)).

(** The series over the years [yearRange] that holds [count y] up to the
    cursor and [null] behind it. *)
Definition series_of (cursor : Z) (yearRange : list Z) (count : Z -> Z)
    : list Point :=
  map (fun y =>
         {| pt_year := y;
            pt_value := if (y <=? cursor)%Z then Some (count y) else None |})
    yearRange.

(** A year record holds a number under each of the keys. *)
Definition numeric_on (keys : list string) (record : gmap string value) : Prop :=
  forall key, key ∈ keys -> exists n, record !! key = Some (VNum n).

(** The cursor year lies inside the year extent. *)
Definition in_extent (yearExtent : Z * Z) (st : State.t) : Prop :=
  yearExtent.1 <= State.year st <= yearExtent.2.

(** A criteria token over the letters i, v and x. *)
Definition ivx_token (c : string) : Prop :=
  c ≠ "" ∧ Forall (fun ch => ch ∈ ["i"; "v"; "x"]%char) (list_ascii_of_string c).

(** The danger events of a list of sites, in the order [forEach] visits
    them. *)
Definition all_events (data : list Site) : list DangerEvent :=
  flat_map dangerEvents data.

(** The number of events of one type in one year. *)
Definition event_count (ty : string) (y : Z) (evs : list DangerEvent) : Z :=
  Z.of_nat
    (length (List.filter
               (fun e => bool_decide (ev_type e = ty) && (ev_year e =? y)%Z) evs)).

(** A site without the danger events dated outside the extent. *)
Definition within_extent (yearExtent : Z * Z) (site : Site) : Site :=
  {| name := name site; region := region site; year := year site;
     category := category site; criteria := criteria site;
     lat := lat site; lon := lon site; countries := countries site;
     statesText := statesText site; danger := danger site;
     dangerEvents :=
       List.filter
         (fun e => (yearExtent.1 <=? ev_year e)%Z && (ev_year e <=? yearExtent.2)%Z)
         (dangerEvents site) |}.

(** The search part of the filter callback. *)
Definition search_ok (st : State.t) (site : Site) : bool :=
  negb (truthy (Some (State.searchTerm st)))
  || Text.includes (Text.toLowerCase (name site ++ " " ++ statesText site))
       (State.searchTerm st).

(** The criteria part of the filter callback. *)
Definition criteria_ok (st : State.t) (site : Site) : bool :=
  negb (bool_decide (0 < size (State.selectedStandards st))%nat)
  || match State.standardMode st with
     | OR =>
         existsb (fun c => bool_decide (c ∈ State.selectedStandards st))
           (criteria site)
     | AND =>
         forallb (fun c => bool_decide (c ∈ criteria site))
           (elements (State.selectedStandards st))
     end.

(** The drill part of the filter callback. *)
Definition drill_ok (selection : option Selection) (site : Site) : bool :=
  match selection with
  | None => true
  | Some sel =>
      (negb (truthy (sel_region sel))
       || bool_decide (Some (region site) = sel_region sel))
      && (negb (truthy (sel_country sel))
          || bool_decide (default "" (sel_country sel) ∈ countries site))
      && (negb (truthy (sel_category sel))
          || bool_decide (Some (category site) = sel_category sel))
  end.

#[global] Instance Selection_eq_dec : EqDecision Selection.
Proof. solve_decision. Defined.

(** The selection [handleSunburstClick] makes of a path. *)
Definition selection_of (path : list string) : Selection :=
  {| sel_region := path !! 0%nat;
     sel_country := path !! 1%nat;
     sel_category := path !! 2%nat |}.

(** The number of sites of year [y] whose grouping key is [k]. *)
Definition site_count (mode : ViewMode) (y : Z) (k : string)
    (data : list Site) : Z :=
  Z.of_nat
    (length (List.filter
               (fun s => (year s =? y)%Z && bool_decide (groupingKey mode s = k))
               data)).

(** A site with the danger events the series count: of type Y or R and
    dated up to the cursor year. *)
Definition counted_events (cursor : Z) (site : Site) : Site :=
  {| name := name site; region := region site; year := year site;
     category := category site; criteria := criteria site;
     lat := lat site; lon := lon site; countries := countries site;
     statesText := statesText site; danger := danger site;
     dangerEvents :=
       List.filter
         (fun e =>
            (bool_decide (ev_type e = "Y") || bool_decide (ev_type e = "R"))
            && (ev_year e <=? cursor)%Z)
         (dangerEvents site) |}.

(** The children of a node. *)
Definition children_of (node : HierarchyNode) : list HierarchyNode :=
  match node with
  | Internal _ children => children
  | Leaf _ _ => []
  end.

(** The scheduler after a sequence of events. *)
Definition sch_run (yearExtent : Z * Z) (events : list SchedulerEvent)
    (s : Scheduler) : Scheduler :=
  foldl (sch_step yearExtent) s events.

(** What holds of the scheduler at any time: the identifiers in use are
    below the next one, and an interval is set exactly while playing,
    namely the one [playTimer] names. *)
Definition sch_inv (s : Scheduler) : Prop :=
  (forall id, id ∈ sch_active s -> (id < sch_next s)%nat)
  ∧ (if State.playing (sch_state s)
     then exists id, sch_playTimer s = Some id ∧ sch_active s = {[id]}
     else sch_active s = ∅).

(** The sum of [f] over the keys. *)
Definition zsum (f : string -> Z) (keys : list string) : Z :=
  foldr (fun k acc => f k + acc) 0 keys.

(** The record of year [y] holds the year and, under each key, the count
    [count y k]. *)
Definition counts_in (keys : list string) (count : Z -> string -> Z)
    (y : Z) (record : gmap string value) : Prop :=
  record !! "year" = Some (VNum y)
  ∧ forall k, k ∈ keys -> record !! k = Some (VNum (count y k)).

(** The records stand one per year of the range and hold the counts. *)
Definition counted (keys : list string) (yearRange : list Z)
    (count : Z -> string -> Z) (records : list (gmap string value)) : Prop :=
  length records = length yearRange
  ∧ forall i y record,
      yearRange !! i = Some y -> records !! i = Some record ->
      counts_in keys count y record.

(** A criteria text: each word in parentheses, with [sep] in front. *)
Definition criteria_text (sep : string) (words : list string) : string :=
  foldr (fun w acc => sep ++ "(" ++ w ++ ")" ++ acc) "" words.

(** A word over the letters i, v, x in either case. *)
Definition ivx_word (w : string) : Prop :=
  w ≠ "" ∧ Forall (fun ch => Text.is_ivx ch = true) (list_ascii_of_string w).

(** ** Sample inputs *)

Module Sample.

Definition here : option Coordinates :=
  Some {| c_lat := Some (Finite 1); c_lon := Some (Finite 2) |}.

(** A raw record with the given date text and criteria text, at finite
    coordinates. *)
Definition raw (date : string) (crit : option string) : RawSite :=
  {| name_en := "Site"; raw_region := Some "Asia";
     date_inscribed := Some date; secondary_dates := None;
     criteria_txt := crit; states_names := Some ["A"];
     danger_list := None; raw_category := Some "Cultural";
     coordinates := here; raw_danger := Some "False" |}.

(** A raw record of the given region and date text. *)
Definition raw_in (r : string) (date : string) : RawSite :=
  {| name_en := "Site"; raw_region := Some r;
     date_inscribed := Some date; secondary_dates := None;
     criteria_txt := None; states_names := Some ["A"];
     danger_list := None; raw_category := Some "Cultural";
     coordinates := here; raw_danger := Some "False" |}.

(** Two raw records of one year, one of them in a region named total. *)
Definition raw_total_region : list RawSite :=
  [raw_in "A" "1980"; raw_in "total" "1980"].

(** The same record without a longitude. *)
Definition raw_no_lon (date : string) : RawSite :=
  {| name_en := "Site"; raw_region := Some "Asia";
     date_inscribed := Some date; secondary_dates := None;
     criteria_txt := None; states_names := Some ["A"];
     danger_list := None; raw_category := Some "Cultural";
     coordinates := Some {| c_lat := Some (Finite 1); c_lon := None |};
     raw_danger := Some "False" |}.

(** The site [formatSite] makes of [raw "1999" crit], given the parsed
    criteria. *)
Definition site (crit : list string) : Site :=
  {| name := "Site"; region := "Asia"; year := 1999;
     category := "Cultural"; criteria := crit;
     lat := Some (Finite 1); lon := Some (Finite 2);
     countries := ["A"]; statesText := "A"; danger := false;
     dangerEvents := [] |}.

(** A site with everything that matters to the aggregation. *)
Definition entry (r : string) (y : Z) (cat : string) (cs : list string)
    (evs : list DangerEvent) : Site :=
  {| name := "Site"; region := r; year := y; category := cat;
     criteria := []; lat := Some (Finite 1); lon := Some (Finite 2);
     countries := cs; statesText := Text.join ", " cs; danger := false;
     dangerEvents := evs |}.

(** The two sites of the specification's scenario, the second with a
    danger event in 1999 and one dated before the extent. *)
Definition scenario : list Site :=
  [ entry "Europe" 1980 "Cultural" ["A"] [];
    entry "Europe" 1995 "Natural" ["A"; "B"]
      [ {| ev_type := "Y"; ev_year := 1999 |};
        {| ev_type := "Y"; ev_year := 1970 |} ] ].

(** The selection state as [init] leaves it for the extent 1978-2024,
    with the given criteria and drill selection. *)
Definition state (selected : gset string) (sel : option Selection) : State.t :=
  {| State.year := 2024; State.viewMode := ByCategory;
     State.selectedStandards := selected; State.standardMode := OR;
     State.searchTerm := ""; State.dangerOnly := false;
     State.showDangerEvents := true; State.brushRange := None;
     State.playing := false; State.sunburstSelection := sel |}.

(** A drill selection with a category but neither region nor country. *)
Definition category_only : Selection :=
  {| sel_region := None; sel_country := None;
     sel_category := Some "Natural" |}.

End Sample.

(** * Properties *)

(** ** Record normaliser *)

Section Normalizer.

Lemma insert_by_year_perm s l : insert_by_year s l ≡ₚ s :: l.
Proof.
  induction l as [|t l IH]; simpl; [done|].
  destruct (year t <? year s)%Z; [|done].
  rewrite IH. apply Permutation_swap.
Qed.

Lemma sort_by_year_perm l : sort_by_year l ≡ₚ l.
Proof.
  induction l as [|s l IH]; simpl; [done|].
  rewrite insert_by_year_perm. by rewrite IH.
Qed.

Lemma init_sites_kept rawSites :
  init_sites rawSites = sort_by_year (omap kept_site rawSites).
Proof.
  unfold init_sites. f_equal.
  induction rawSites as [|d l IH]; [done|].
  cbn [map omap list_omap]. rewrite filter_cons.
  unfold kept_site at 1.
  destruct (formatSite d) as [s|]; simpl.
  - destruct (isFinite (lat s) && isFinite (lon s) && true) eqn:E.
    + case_decide; [|done]. simpl. f_equal. exact IH.
    + case_decide; [done|]. exact IH.
  - exact IH.
Qed.

(** [match_d4] returns four digits. *)
Lemma digits4_here_spec s m :
  Text.digits4_here s = Some m ->
  exists a b c d rest,
    s = String a (String b (String c (String d rest)))
    /\ m = String a (String b (String c (String d EmptyString)))
    /\ Text.is_digit a = true /\ Text.is_digit b = true
    /\ Text.is_digit c = true /\ Text.is_digit d = true.
Proof.
  destruct s as [|a [|b [|c [|d rest]]]]; simpl; try discriminate.
  destruct (Text.is_digit a) eqn:Ha; simpl; [|discriminate].
  destruct (Text.is_digit b) eqn:Hb; simpl; [|discriminate].
  destruct (Text.is_digit c) eqn:Hc; simpl; [|discriminate].
  destruct (Text.is_digit d) eqn:Hd; simpl; [|discriminate].
  intros [= <-]. by exists a, b, c, d, rest.
Qed.

Lemma substring_all t : String.substring 0 (String.length t) t = t.
Proof. induction t as [|x t IHt]; simpl; [done|]. by rewrite IHt. Qed.

(** [match_d4] finds the leftmost block: the text splits into a prefix,
    the four digits and a rest, and no block of four digits starts
    inside the prefix. *)
Lemma match_d4_Some s m :
  Text.match_d4 s = Some m ->
  exists pre post,
    s = pre ++ m ++ post
    /\ Text.digits4_here (m ++ post) = Some m
    /\ (forall i, (i < String.length pre)%nat ->
        Text.digits4_here (String.substring i (String.length s - i) s) = None).
Proof.
  induction s as [|c s IH]; [discriminate|].
  intros H. cbn [Text.match_d4] in H.
  destruct (Text.digits4_here (String c s)) as [m'|] eqn:Hd.
  - injection H as ->. exists "".
    destruct (digits4_here_spec _ _ Hd)
      as (a & b & c' & d & rest & Hs & Hm & _).
    exists rest. split; [by rewrite Hs, Hm|].
    split; [|simpl; lia].
    rewrite Hm. simpl. rewrite Hs in Hd. by rewrite Hm in Hd.
  - destruct (IH H) as (pre & post & Hs & Hh & Hleft).
    exists (String c pre), post. split; [by rewrite Hs at 1|].
    split; [done|].
    intros [|i] Hi.
    + rewrite Nat.sub_0_r, substring_all. done.
    + simpl in Hi. cbn [String.length Nat.sub String.substring].
      apply Hleft. lia.
Qed.

(** [match_d4] fails only when no position starts four digits. *)
Lemma match_d4_None s :
  Text.match_d4 s = None ->
  forall pre post, s = pre ++ post -> Text.digits4_here post = None.
Proof.
  induction s as [|c s IH]; intros H pre post Hs.
  - destruct pre; [|discriminate]. change ("" = post) in Hs. by rewrite <- Hs.
  - cbn [Text.match_d4] in H.
    destruct (Text.digits4_here (String c s)) eqn:Hd; [discriminate|].
    destruct pre as [|x pre].
    + change (String c s = post) in Hs. by rewrite <- Hs.
    + change (String c s = String x (pre ++ post)) in Hs.
      injection Hs as -> Hs. by eapply IH.
Qed.

Lemma parseYear_match (v : option string) m :
  Text.match_d4 (default "" v) = Some m ->
  parseYear v = Some (Text.to_number m).
Proof.
  intros H. unfold parseYear.
  destruct v as [[|c s]|]; [discriminate H| |discriminate H].
  change (default "" (Some (String c s))) with (String c s) in *.
  change (negb (truthy (Some (String c s)))) with false. cbv iota.
  by rewrite H.
Qed.

Lemma parseYear_no_match (v : option string) :
  Text.match_d4 (default "" v) = None -> parseYear v = None.
Proof.
  intros H. unfold parseYear.
  destruct v as [[|c s]|]; [done| |done].
  change (default "" (Some (String c s))) with (String c s) in *.
  change (negb (truthy (Some (String c s)))) with false. cbv iota.
  by rewrite H.
Qed.

End Normalizer.

(** C1 (as amended).  [init] keeps, up to the order of the sort, exactly the
    sites [kept_site] yields.  A record with finite latitude and longitude
    whose date text holds four consecutive digits of non-zero value is
    kept, with the leftmost such block as its year; a record without a
    finite latitude, without a finite longitude, or whose date text holds
    no four consecutive digits is dropped. *)
Theorem normalize_keeps_and_drops (rawSites : list RawSite) (d : RawSite) :
  init_sites rawSites ≡ₚ omap kept_site rawSites
  ∧ (forall m,
        isFinite (coordinates d ≫= c_lat) = true ->
        isFinite (coordinates d ≫= c_lon) = true ->
        Text.match_d4 (default "" (date_text d)) = Some m ->
        Text.to_number m ≠ 0 ->
        exists s, kept_site d = Some s ∧ year s = Text.to_number m)
  ∧ (isFinite (coordinates d ≫= c_lat) = false
     ∨ isFinite (coordinates d ≫= c_lon) = false
     ∨ Text.match_d4 (default "" (date_text d)) = None ->
     kept_site d = None).
Proof.
  split; [rewrite init_sites_kept; apply sort_by_year_perm|].
  split.
  - intros m Hlat Hlon Hm Hnz.
    unfold kept_site, formatSite.
    rewrite (parseYear_match _ _ Hm).
    destruct (Z.eqb_spec (Text.to_number m) 0) as [E|_]; [done|].
    cbn [valid_site lat lon]. rewrite Hlat, Hlon. cbn [andb].
    eexists. split; [reflexivity|done].
  - intros H. unfold kept_site.
    destruct (formatSite d) as [s|] eqn:Hf; [|done].
    unfold formatSite in Hf.
    destruct (parseYear (date_text d)) as [y|] eqn:Hy; [|done].
    destruct (y =? 0)%Z; [done|]. injection Hf as <-.
    cbn [valid_site lat lon].
    destruct H as [H|[H|H]].
    + by rewrite H.
    + rewrite H. by rewrite andb_false_r.
    + by rewrite (parseYear_no_match _ H) in Hy.
Qed.

(** The per-record step in full: a record is dropped exactly when a
    coordinate is not finite, the date text holds no four consecutive
    digits, or the leftmost four digits have the value 0 (the guard
    [if (!year) return null] of [formatSite]). *)
Lemma kept_site_None_iff (d : RawSite) :
  kept_site d = None
  <-> isFinite (coordinates d ≫= c_lat) = false
      ∨ isFinite (coordinates d ≫= c_lon) = false
      ∨ Text.match_d4 (default "" (date_text d)) = None
      ∨ (exists m, Text.match_d4 (default "" (date_text d)) = Some m
                   ∧ Text.to_number m = 0).
Proof.
  unfold kept_site, formatSite.
  destruct (Text.match_d4 (default "" (date_text d))) as [m|] eqn:Hm.
  - rewrite (parseYear_match _ _ Hm).
    destruct (Z.eqb_spec (Text.to_number m) 0) as [Hz|Hnz].
    + split; [|done]. intros _. do 3 right. by exists m.
    + cbn [valid_site lat lon]. rewrite andb_true_r.
      destruct (isFinite (coordinates d ≫= c_lat));
        destruct (isFinite (coordinates d ≫= c_lon)); cbn [andb];
        split; try done; try (by intros _; auto).
      intros [?|[?|[?|(m' & [= <-] & ?)]]]; done.
  - rewrite (parseYear_no_match _ Hm). split; [|done]. intros _. auto.
Qed.

Lemma normalize_keeps_and_drops_witness :
  (exists s, kept_site (Sample.raw "Inscribed 12345" None) = Some s ∧ year s = 1234)
  ∧ kept_site (Sample.raw_no_lon "1999") = None.
Proof.
  split.
  - apply (proj1 (proj2 (normalize_keeps_and_drops
                           [] (Sample.raw "Inscribed 12345" None)))
             "1234"); [reflexivity|reflexivity|reflexivity|].
    vm_compute. discriminate.
  - apply (proj2 (proj2 (normalize_keeps_and_drops [] (Sample.raw_no_lon "1999")))).
    right. left. reflexivity.
Defined.

(** C1, as stated, fails: a record at finite coordinates whose date text
    is the run 0000 is dropped, and one whose only digits are the run
    12345 (no run of exactly four) is kept, with year 1234. *)
Lemma normalize_exact_run_counterexample :
  (Spec.kept (Sample.raw "0000" None)
   ∧ init_sites [Sample.raw "0000" None] = [])
  ∧ (¬ Spec.kept (Sample.raw "12345" None)
     ∧ year <$> init_sites [Sample.raw "12345" None] = [1234]).
Proof.
  split; split.
  - unfold Spec.kept. split; [reflexivity|]. split; [reflexivity|].
    vm_compute. eauto.
  - reflexivity.
  - unfold Spec.kept. intros (_ & _ & H). vm_compute in H.
    by destruct H.
  - reflexivity.
Qed.

Section Criteria.

Lemma span_Forall p s a b :
  Text.span p s = (a, b) ->
  Forall (fun ch => p ch = true) (list_ascii_of_string a).
Proof.
  revert a b. induction s as [|c s IH]; intros a b; simpl.
  - intros [= <- <-]. constructor.
  - destruct (p c) eqn:Hc.
    + destruct (Text.span p s) as [r rest] eqn:Hsp.
      intros [= <- <-]. simpl. constructor; [done|]. by eapply IH.
    + intros [= <- <-]. constructor.
Qed.

(** A match of the criteria pattern is a parenthesised, non-empty run
    of the letters i, v, x in either case. *)
Lemma criterion_here_spec s m :
  Text.criterion_here s = Some m ->
  exists body,
    m = String "(" (body ++ ")") ∧ body ≠ ""
    ∧ Forall (fun ch => Text.is_ivx ch = true) (list_ascii_of_string body).
Proof.
  unfold Text.criterion_here.
  destruct s as [|c s1]; [done|].
  destruct (decide (c = "("%char)) as [->|Hne].
  - destruct (Text.span Text.is_ivx s1) as [[|x r] rest] eqn:Hsp; [done|].
    destruct rest as [|y rest]; [done|].
    destruct (decide (y = ")"%char)) as [->|Hy].
    + intros [= <-]. exists (String x r). split; [done|]. split; [done|].
      by eapply span_Forall.
    + intros H. exfalso.
      destruct y as [[] [] [] [] [] [] [] []]; try discriminate H.
      by apply Hy.
  - intros H. exfalso.
    destruct c as [[] [] [] [] [] [] [] []]; try discriminate H.
    by apply Hne.
Qed.

Lemma scan_Forall {A} (P : A -> Prop) (here : string -> option (A * nat)) :
  (forall s a n, here s = Some (a, n) -> P a) ->
  forall s k, Forall P (Text.scan here k s).
Proof.
  intros Hhere. induction s as [|c s IH]; intros k; simpl; [constructor|].
  destruct k as [|k]; [|apply IH].
  destruct (here (String c s)) as [[a n]|] eqn:Hh; [|apply IH].
  constructor; [by eapply Hhere|apply IH].
Qed.

Lemma strip_parens_ivx body :
  Forall (fun ch => Text.is_ivx ch = true) (list_ascii_of_string body) ->
  Text.strip_parens (String "(" (body ++ ")")) = body.
Proof.
  intros H. cbn [Text.strip_parens].
  induction body as [|c body IH]; [reflexivity|].
  simpl in H. inversion H as [|? ? Hc Hrest]; subst.
  change (String c body ++ ")") with (String c (body ++ ")")).
  cbn [Text.strip_parens]. rewrite (IH Hrest).
  destruct c as [[] [] [] [] [] [] [] []]; try discriminate Hc; reflexivity.
Qed.

Lemma toLowerCase_ivx body :
  body ≠ "" ->
  Forall (fun ch => Text.is_ivx ch = true) (list_ascii_of_string body) ->
  ivx_token (Text.toLowerCase body).
Proof.
  intros Hne H. split; [by destruct body|].
  clear Hne. induction body as [|c body IH]; simpl; [constructor|].
  simpl in H. inversion H as [|? ? Hc Hrest]; subst.
  constructor; [|by apply IH].
  destruct c as [[] [] [] [] [] [] [] []]; try discriminate Hc;
    vm_compute; set_solver.
Qed.

(** Every token [parseCriteria] returns is a non-empty lower-case word
    over i, v, x. *)
Lemma parseCriteria_tokens text : Forall ivx_token (parseCriteria text).
Proof.
  unfold parseCriteria. destruct (negb (truthy text)); [constructor|].
  apply Forall_map. eapply Forall_impl; [apply scan_Forall|].
  - intros s a n H.
    instantiate (1 := fun m => ivx_token (Text.toLowerCase (Text.strip_parens m))).
    destruct (Text.criterion_here s) as [m|] eqn:Hm; [|done].
    injection H as <- _.
    destruct (criterion_here_spec _ _ Hm) as (body & -> & Hne & Hall).
    rewrite strip_parens_ivx by done. by apply toLowerCase_ivx.
  - done.
Qed.

Lemma formatSite_criteria d s :
  formatSite d = Some s -> criteria s = parseCriteria (criteria_txt d).
Proof.
  unfold formatSite. destruct (parseYear (date_text d)); [|done].
  destruct (_ =? 0)%Z; [done|]. by intros [= <-].
Qed.

Lemma init_sites_origin rawSites s :
  s ∈ init_sites rawSites ->
  exists d, d ∈ rawSites ∧ formatSite d = Some s ∧ kept_site d = Some s.
Proof.
  rewrite init_sites_kept, sort_by_year_perm, list_elem_of_omap.
  intros (d & Hd & Hk). exists d. split; [done|]. split; [|done].
  unfold kept_site in Hk. destruct (formatSite d) as [s'|]; [|done].
  destruct (valid_site (Some s')); by simplify_eq.
Qed.

End Criteria.

(** C3 (as amended).  Every criteria token of a normalised site is a
    non-empty lower-case word over the letters i, v and x. *)
Theorem criteria_tokens_over_ivx (rawSites : list RawSite) (s : Site) :
  s ∈ init_sites rawSites -> Forall ivx_token (criteria s).
Proof.
  intros (d & _ & Hf & _)%init_sites_origin.
  rewrite (formatSite_criteria _ _ Hf). apply parseCriteria_tokens.
Qed.

Lemma criteria_tokens_over_ivx_witness :
  Sample.site ["i"; "xi"] ∈ init_sites [Sample.raw "1999" (Some "(I), (xi)")]
  ∧ Forall ivx_token ["i"; "xi"].
Proof.
  assert (H : Sample.site ["i"; "xi"]
              ∈ init_sites [Sample.raw "1999" (Some "(I), (xi)")])
    by (vm_compute; left).
  split; [exact H|].
  exact (criteria_tokens_over_ivx _ _ H).
Defined.

(** C3, as stated, fails: the criteria text (xi) puts the token xi on the
    site, which is none of the ten codes. *)
Lemma criteria_outside_alphabet_counterexample :
  Sample.site ["xi"] ∈ init_sites [Sample.raw "1999" (Some "(xi)")]
  ∧ ¬ (criteria (Sample.site ["xi"]) ⊆ Spec.criteriaOrder).
Proof.
  split; [vm_compute; left|].
  intros H. assert (Hin : "xi" ∈ Spec.criteriaOrder) by (apply H; left).
  revert Hin. apply (bool_decide_unpack _). by vm_compute.
Qed.

(** ** Selection state and playback *)

(** C2 (as amended).  The slider listener stores the value it is given,
    unchanged, and touches nothing else of the cursor; for a value inside
    the extent (the range the slider is set up with) this is the clamped
    value, so the cursor year then lies inside the extent. *)
Theorem slider_stores_value (yearExtent : Z * Z) (y : Z) (st : State.t) :
  State.year (on_yearSlider_input y st) = y
  ∧ (yearExtent.1 <= y <= yearExtent.2 ->
     State.year (on_yearSlider_input y st) = Spec.clamp yearExtent y
     ∧ yearExtent.1 <= State.year (on_yearSlider_input y st) <= yearExtent.2).
Proof.
  split; [reflexivity|].
  intros Hy. cbn [on_yearSlider_input State.with_year State.year].
  unfold Spec.clamp. lia.
Qed.

Lemma slider_stores_value_witness :
  State.year (on_yearSlider_input 1990 (Sample.state ∅ None))
  = Spec.clamp (1978, 2024) 1990
  ∧ 1978 <= State.year (on_yearSlider_input 1990 (Sample.state ∅ None)) <= 2024.
Proof.
  apply (proj2 (slider_stores_value (1978, 2024) 1990 (Sample.state ∅ None))).
  simpl. lia.
Defined.

(** C2, as stated, fails: the listener stores 2030 for the extent
    1978-2024, where clamping gives 2024. *)
Lemma slider_does_not_clamp_counterexample :
  State.year (on_yearSlider_input 2030 (Sample.state ∅ None)) = 2030
  ∧ Spec.clamp (1978, 2024) 2030 = 2024
  ∧ ¬ (1978 <= State.year (on_yearSlider_input 2030 (Sample.state ∅ None)) <= 2024).
Proof.
  split; [reflexivity|]. split; [reflexivity|]. simpl. lia.
Qed.

Section Playback.

Variable yearExtent : Z * Z.

Lemma tick_year st :
  State.year (tick yearExtent st)
  = if (State.year st >=? yearExtent.2)%Z then yearExtent.1
    else State.year st + 1.
Proof. unfold tick. by destruct (_ >=? _)%Z. Qed.

Lemma tick_in_extent st :
  in_extent yearExtent st -> in_extent yearExtent (tick yearExtent st).
Proof.
  unfold in_extent. rewrite tick_year.
  destruct (Z.geb_spec (State.year st) yearExtent.2); lia.
Qed.

Lemma on_interval_in_extent p :
  in_extent yearExtent (p_state p) ->
  in_extent yearExtent (p_state (on_interval yearExtent p)).
Proof.
  unfold on_interval. destruct (p_timer p); [|done].
  apply tick_in_extent.
Qed.

(** [togglePlay] keeps the timer in step with [state.playing]. *)
Lemma togglePlay_timer p :
  p_timer (togglePlay p) = State.playing (p_state (togglePlay p)).
Proof.
  unfold togglePlay.
  destruct (State.playing (p_state p)); reflexivity.
Qed.

End Playback.

(** C9.  While the timer runs and the cursor year is inside the extent, a
    tick sets the cursor to [yearMin] when it is at [yearMax] and adds 1
    otherwise; the cursor stays inside the extent after any number of
    ticks. *)
Theorem tick_wraps_or_increments (yearExtent : Z * Z) (p : Player) :
  p_timer p = true ->
  yearExtent.1 <= State.year (p_state p) <= yearExtent.2 ->
  (State.year (p_state p) = yearExtent.2 ->
   State.year (p_state (on_interval yearExtent p)) = yearExtent.1)
  ∧ (State.year (p_state p) ≠ yearExtent.2 ->
     State.year (p_state (on_interval yearExtent p))
     = State.year (p_state p) + 1)
  ∧ (forall n : nat,
       yearExtent.1
       <= State.year (p_state (Nat.iter n (on_interval yearExtent) p))
       <= yearExtent.2).
Proof.
  intros Ht Hin. unfold on_interval at 1 2. rewrite Ht.
  cbn [p_state]. rewrite tick_year.
  destruct (Z.geb_spec (State.year (p_state p)) yearExtent.2);
    (split; [lia|]); (split; [lia|]);
    (induction n as [|n IH]; [exact Hin|];
     cbn [Nat.iter]; by apply on_interval_in_extent).
Qed.

Lemma tick_wraps_or_increments_witness :
  State.year
    (p_state (on_interval (1978, 2024)
                (togglePlay {| p_state := Sample.state ∅ None; p_timer := false |})))
  = 1978.
Proof.
  apply (proj1 (tick_wraps_or_increments (1978, 2024)
                  (togglePlay {| p_state := Sample.state ∅ None; p_timer := false |})
                  eq_refl ltac:(simpl; lia))).
  reflexivity.
Defined.

(** ** Filter engine *)

Section Filter.

Lemma filter_mono {A} (f g : A -> bool) (l : list A) :
  (forall x, f x = true -> g x = true) ->
  List.filter f l `sublist_of` List.filter g l.
Proof.
  intros Hfg. induction l as [|x l IH]; simpl; [done|].
  destruct (f x) eqn:Hf.
  - rewrite (Hfg x Hf). by constructor.
  - destruct (g x); [by constructor|done].
Qed.

(** With a criterion selected, a site that has all selected criteria
    has one of them. *)
Lemma hasAll_hasAny (selected : gset string) (crit : list string) :
  selected ≠ ∅ ->
  forallb (fun c => bool_decide (c ∈ crit)) (elements selected) = true ->
  existsb (fun c => bool_decide (c ∈ selected)) crit = true.
Proof.
  intros [c Hc]%set_choose_L Hall.
  rewrite forallb_forall in Hall.
  apply existsb_exists. exists c. split.
  - apply list_elem_of_In. eapply bool_decide_unpack, Is_true_true_2, Hall.
    by apply list_elem_of_In, elem_of_elements.
  - by apply bool_decide_eq_true_2.
Qed.

Lemma passes_AND_OR st s :
  State.selectedStandards st ≠ ∅ ->
  passes (State.with_standardMode AND st) s = true ->
  passes (State.with_standardMode OR st) s = true.
Proof.
  intros Hne. unfold passes.
  cbn [State.with_standardMode State.year State.dangerOnly
       State.searchTerm State.selectedStandards State.standardMode
       State.sunburstSelection].
  destruct (State.year st <? year s)%Z; [done|].
  destruct (State.dangerOnly st && negb (danger s)); [done|].
  destruct (truthy (Some (State.searchTerm st)) && _); [done|].
  destruct (bool_decide (0 < size (State.selectedStandards st))%nat);
    [|done].
  destruct (forallb _ _) eqn:Hall; [|done].
  by rewrite (hasAll_hasAny _ _ Hne Hall).
Qed.

End Filter.

(** C8.  For the same non-empty set of selected criteria, the sites that
    pass the filter in mode AND also pass it in mode OR, in the same
    order. *)
Theorem filter_AND_within_OR (sites : list Site) (st : State.t) :
  State.selectedStandards st ≠ ∅ ->
  getFilteredSites sites (State.with_standardMode AND st)
    `sublist_of` getFilteredSites sites (State.with_standardMode OR st)
  ∧ (forall s, s ∈ getFilteredSites sites (State.with_standardMode AND st) ->
               s ∈ getFilteredSites sites (State.with_standardMode OR st)).
Proof.
  intros Hne.
  assert (Hsub : getFilteredSites sites (State.with_standardMode AND st)
                   `sublist_of` getFilteredSites sites (State.with_standardMode OR st))
    by (apply filter_mono; intros s; by apply passes_AND_OR).
  split; [done|]. intros s Hs. by eapply elem_of_sublist.
Qed.

Lemma filter_AND_within_OR_witness :
  getFilteredSites [Sample.site ["i"; "ii"]; Sample.site ["i"]]
    (State.with_standardMode AND (Sample.state {["i"; "ii"]} None))
    `sublist_of`
  getFilteredSites [Sample.site ["i"; "ii"]; Sample.site ["i"]]
    (State.with_standardMode OR (Sample.state {["i"; "ii"]} None)).
Proof.
  apply (filter_AND_within_OR
           [Sample.site ["i"; "ii"]; Sample.site ["i"]]
           (Sample.state {["i"; "ii"]} None)).
  apply (non_empty_inhabited_L "i"). simpl. set_solver.
Defined.

(** A branch of the filter callback that has returned [false]. *)
Ltac rejected :=
  split; [intros E; discriminate E | intros [E _]; discriminate E].

(** C4 (as amended).  Every field of the drill selection that is set
    constrains the result on its own, whether or not the shallower fields
    are set: a site passes iff it passes without the drill selection, its
    region is the selected region, its countries hold the selected
    country and its category is the selected category, each for a field
    that is set. *)
Theorem drill_fields_constrain_independently
    (sites : list Site) (st : State.t) (sel : Selection) (s : Site) :
  State.sunburstSelection st = Some sel ->
  s ∈ getFilteredSites sites st
  <-> s ∈ getFilteredSites sites (State.with_sunburstSelection None st)
      ∧ (forall r, sel_region sel = Some r -> r ≠ "" -> region s = r)
      ∧ (forall c, sel_country sel = Some c -> c ≠ "" -> c ∈ countries s)
      ∧ (forall k, sel_category sel = Some k -> k ≠ "" -> category s = k).
Proof.
  intros Hsel. unfold getFilteredSites.
  rewrite !list_elem_of_In, !filter_In.
  assert (Hp : passes st s = true
          <-> passes (State.with_sunburstSelection None st) s = true
              ∧ (forall r, sel_region sel = Some r -> r ≠ "" -> region s = r)
              ∧ (forall c, sel_country sel = Some c -> c ≠ "" -> c ∈ countries s)
              ∧ (forall k, sel_category sel = Some k -> k ≠ "" -> category s = k)).
  { unfold passes.
    cbn [State.with_sunburstSelection State.year State.dangerOnly
         State.searchTerm State.selectedStandards State.standardMode
         State.sunburstSelection].
    rewrite Hsel.
    destruct (State.year st <? year s)%Z; [rejected|].
    destruct (State.dangerOnly st && negb (danger s)); [rejected|].
    destruct (truthy (Some (State.searchTerm st)) && _); [rejected|].
    destruct (bool_decide (0 < size (State.selectedStandards st))%nat && _);
      [rejected|].
    destruct sel as [[[|r0 r]|] [[|c0 c]|] [[|k0 k]|]];
      cbn [sel_region sel_country sel_category truthy andb negb default];
      repeat case_bool_decide; cbn [negb andb];
      (split;
       [ intros E;
         first [ discriminate E
               | split; [done|];
                 repeat split; intros x [= <-] Hx; (done || congruence) ]
       | intros (_ & Hr & Hc & Hk);
         first [ reflexivity
               | exfalso;
                 match goal with
                 | Hn : ¬ _ |- _ =>
                     apply Hn;
                     first [ by eapply Hc
                           | f_equal; first [ by eapply Hr | by eapply Hk ] ]
                 end ] ]). }
  tauto.
Qed.

Lemma drill_fields_constrain_independently_witness :
  Sample.site [] ∈ getFilteredSites [Sample.site []]
                     (Sample.state ∅ (Some Sample.category_only))
  <-> Sample.site [] ∈ getFilteredSites [Sample.site []]
                         (State.with_sunburstSelection None
                            (Sample.state ∅ (Some Sample.category_only)))
      ∧ (forall r, None = Some r -> r ≠ "" -> "Asia" = r)
      ∧ (forall c, None = Some c -> c ≠ "" -> c ∈ ["A"])
      ∧ (forall k, Some "Natural" = Some k -> k ≠ "" -> "Cultural" = k).
Proof.
  exact (drill_fields_constrain_independently
           [Sample.site []] (Sample.state ∅ (Some Sample.category_only))
           Sample.category_only (Sample.site []) eq_refl).
Defined.

(** C4, as stated, fails: with the category Natural selected and neither
    region nor country set, the filter still rejects a Cultural site,
    while filtering with the category removed keeps it. *)
Lemma drill_category_without_country_counterexample :
  getFilteredSites [Sample.site []]
    (Sample.state ∅ (Some Sample.category_only)) = []
  ∧ getFilteredSites [Sample.site []]
      (Sample.state ∅ (Some (Spec.prune Sample.category_only)))
    = [Sample.site []].
Proof. split; reflexivity. Qed.

(** The selections [handleSunburstClick] stores are paths from the top:
    a field is set only when the shallower ones are. *)
Lemma handleSunburstClick_path path st sel :
  State.sunburstSelection (handleSunburstClick path st) = Some sel ->
  (is_Some (sel_category sel) -> is_Some (sel_country sel))
  ∧ (is_Some (sel_country sel) -> is_Some (sel_region sel)).
Proof.
  unfold handleSunburstClick.
  cbn [State.sunburstSelection State.with_sunburstSelection].
  destruct (match State.sunburstSelection st with Some _ => _ | None => _ end);
    [done|].
  intros [= <-]. cbn [sel_region sel_country sel_category].
  destruct path as [|a [|b [|c path]]]; cbn; split; intros [x Hx]; by eauto.
Qed.

(** ** Aggregation engine: hierarchy rollup *)

Section Hierarchy.

Context {A : Type}.

Lemma group_push_sizes k (v : A) groups :
  group_sizes (group_push k v groups) = S (group_sizes groups).
Proof.
  unfold group_sizes.
  induction groups as [|[k' vs] rest IH]; simpl; [done|].
  destruct (decide (k = k')); simpl.
  - rewrite length_app. simpl. lia.
  - rewrite IH. lia.
Qed.

(** [d3.group] loses and duplicates nothing: the group sizes add up
    to the number of values. *)
Lemma d3_group_sizes (keyof : A -> string) values :
  group_sizes (d3_group keyof values) = length values.
Proof.
  unfold d3_group.
  enough (H : forall groups,
             group_sizes (foldl (fun g v => group_push (keyof v) v g) groups values)
             = (group_sizes groups + length values)%nat)
    by (rewrite H; reflexivity).
  induction values as [|v l IH]; intros groups; simpl; [lia|].
  rewrite IH, group_push_sizes. lia.
Qed.

(** Summing over the groups a function that yields the size of each
    group gives the number of values. *)
Lemma sum_over_groups (keyof : A -> string) (h : string * list A -> nat) values :
  (forall k vs, h (k, vs) = length vs) ->
  sum_list (map h (d3_group keyof values)) = length values.
Proof.
  intros Hh. rewrite <- (d3_group_sizes keyof values). unfold group_sizes.
  f_equal. apply map_ext. by intros [k vs].
Qed.

End Hierarchy.

Section Groups.

Context {A : Type}.

Lemma pick_group_push k k' (v : A) groups :
  pick k (group_push k' v groups)
  = if decide (k = k') then Some (default [] (pick k groups) ++ [v])%list
    else pick k groups.
Proof.
  unfold pick.
  induction groups as [|[k0 vs] rest IH]; cbn [group_push].
  - cbn [List.find fst]. destruct (decide (k = k')) as [->|Hne].
    + by rewrite bool_decide_eq_true_2.
    + by rewrite bool_decide_eq_false_2 by congruence.
  - destruct (decide (k' = k0)) as [->|Hne0]; cbn [List.find fst].
    + destruct (decide (k = k0)) as [->|Hne].
      * by rewrite !bool_decide_eq_true_2.
      * by rewrite !bool_decide_eq_false_2 by congruence.
    + destruct (decide (k0 = k)) as [->|Hne].
      * rewrite !bool_decide_eq_true_2 by done.
        by rewrite decide_False by congruence.
      * rewrite !bool_decide_eq_false_2 by done. apply IH.
Qed.

Lemma d3_group_snoc (keyof : A -> string) values v :
  d3_group keyof (values ++ [v])
  = group_push (keyof v) v (d3_group keyof values).
Proof. unfold d3_group. by rewrite foldl_app. Qed.

(** The group of a key holds the values with that key, in their
    order; a key without values has no group. *)
Lemma pick_d3_group (keyof : A -> string) values k :
  pick k (d3_group keyof values)
  = match List.filter (fun v => bool_decide (keyof v = k)) values with
    | [] => None
    | x :: l => Some (x :: l)
    end.
Proof.
  induction values as [|v values IH] using rev_ind; [done|].
  rewrite d3_group_snoc, pick_group_push, IH, List.filter_app.
  cbn [List.filter].
  destruct (decide (k = keyof v)) as [->|Hne].
  - rewrite bool_decide_eq_true_2 by done.
    by destruct (List.filter _ values).
  - rewrite bool_decide_eq_false_2 by congruence.
    by rewrite app_nil_r.
Qed.

Lemma pick_map {B} (f : A -> B) k (entries : list (string * A)) :
  pick k (map (fun '(key, v) => (key, f v)) entries) = f <$> pick k entries.
Proof.
  unfold pick. induction entries as [|[k0 v] rest IH]; [done|].
  cbn [map List.find fst]. destruct (bool_decide (k0 = k)); [done|apply IH].
Qed.

Lemma find_child (mk : string -> A -> HierarchyNode) k
    (entries : list (string * A)) :
  (forall key v, node_name (mk key v) = key) ->
  List.find (fun c => bool_decide (node_name c = k))
    (map (fun '(key, v) => mk key v) entries)
  = mk k <$> pick k entries.
Proof.
  intros Hmk. unfold pick.
  induction entries as [|[k0 v] rest IH]; [done|].
  cbn [map List.find fst]. rewrite Hmk.
  destruct (bool_decide_reflect (k0 = k)) as [->|]; [done|apply IH].
Qed.

End Groups.

Section HierarchyShape.

(** [buildHierarchy], level by level. *)
Lemma buildHierarchy_levels data :
  buildHierarchy data
  = Internal "World"
      (map (fun '(r, g) => region_node r g)
         (d3_group (fun sc => region sc.1) (flat_map site_countries data))).
Proof.
  unfold buildHierarchy, d3_rollup2, d3_rollup. cbn [rollupToChildren].
  f_equal. rewrite map_map. apply map_ext. intros [r g].
  unfold region_node. cbn [rollupToChildren]. f_equal.
  rewrite map_map. apply map_ext. intros [c g'].
  unfold country_node. cbn [rollupToChildren]. f_equal.
  rewrite map_map. apply map_ext. by intros [k g''].
Qed.

Lemma leaf_sum_country_node c vs : leaf_sum (country_node c vs) = length vs.
Proof.
  unfold country_node. cbn [leaf_sum]. rewrite map_map.
  apply sum_over_groups. by intros k g.
Qed.

Lemma leaf_sum_region_node r vs : leaf_sum (region_node r vs) = length vs.
Proof.
  unfold region_node. cbn [leaf_sum]. rewrite map_map.
  rewrite <- (d3_group_sizes (fun sc => sc.2) vs). unfold group_sizes.
  f_equal. apply map_ext. intros [c g]. apply leaf_sum_country_node.
Qed.

Lemma length_site_countries data :
  length (flat_map site_countries data)
  = sum_list (map (fun s => length (countries s)) data).
Proof.
  induction data as [|s data IH]; [done|].
  cbn [flat_map map sum_list sum_list_with]. rewrite length_app, IH.
  unfold site_countries. by rewrite length_map.
Qed.

End HierarchyShape.

(** C6.  The leaf values of the hierarchy add up to the number of
    (site, country) pairs, the sum of the lengths of the country lists.
    The leaf below region [r], country [c] and category [k] exists iff
    some pair has that region, country and category, and its value is the
    number of such pairs; so every country of a site leads to a leaf that
    counts the site. *)
Theorem hierarchy_leaves_count_pairs (data : list Site) :
  leaf_sum (buildHierarchy data)
  = sum_list (map (fun s => length (countries s)) data)
  ∧ (forall r c k,
        leaf_at r c k (buildHierarchy data)
        = match pairs_at r c k data with
          | [] => None
          | p :: l => Some (length (p :: l))
          end)
  ∧ (forall s c,
        s ∈ data -> c ∈ countries s ->
        exists n, leaf_at (region s) c (category s) (buildHierarchy data) = Some n
                  ∧ (1 <= n)%nat).
Proof.
  assert (Hleaf : forall r c k,
             leaf_at r c k (buildHierarchy data)
             = match pairs_at r c k data with
               | [] => None
               | p :: l => Some (length (p :: l))
               end).
  { intros r c k. rewrite buildHierarchy_levels. unfold leaf_at, pairs_at.
    cbn [child]. rewrite (find_child region_node) by done.
    rewrite pick_d3_group.
    destruct (List.filter _ (flat_map site_countries data)) as [|p1 l1]; [done|].
    cbn [fmap option_fmap option_map region_node child].
    rewrite (find_child country_node) by done.
    rewrite pick_d3_group.
    destruct (List.filter _ (p1 :: l1)) as [|p2 l2]; [done|].
    cbn [fmap option_fmap option_map country_node child].
    rewrite (find_child category_node) by done.
    rewrite pick_d3_group.
    by destruct (List.filter _ (p2 :: l2)) as [|p3 l3]. }
  split; [|split; [exact Hleaf|]].
  - rewrite buildHierarchy_levels. cbn [leaf_sum]. rewrite map_map.
    rewrite <- length_site_countries.
    rewrite <- (d3_group_sizes (fun sc => region sc.1)
                  (flat_map site_countries data)).
    unfold group_sizes. f_equal. apply map_ext. intros [r g].
    apply leaf_sum_region_node.
  - intros s c Hs Hc. rewrite Hleaf.
    assert (Hin : (s, c) ∈ pairs_at (region s) c (category s) data).
    { unfold pairs_at. rewrite list_elem_of_In, !filter_In, in_flat_map.
      repeat split; try by apply bool_decide_eq_true_2.
      exists s. split; [by apply list_elem_of_In|].
      unfold site_countries. apply in_map. by apply list_elem_of_In. }
    destruct (pairs_at _ _ _ data) as [|p l]; [by apply elem_of_nil in Hin|].
    eexists. split; [reflexivity|]. simpl. lia.
Qed.

(** ** Aggregation engine: the year range *)

Section YearRange.

Lemma d3_range_length a b : length (d3_range a b) = Z.to_nat (b - a).
Proof. unfold d3_range. by rewrite length_map, length_seq. Qed.

Lemma d3_range_lookup a b (i : nat) y :
  d3_range a b !! i = Some y
  <-> (i < Z.to_nat (b - a))%nat ∧ y = a + Z.of_nat i.
Proof.
  unfold d3_range. rewrite list_lookup_fmap, fmap_Some.
  setoid_rewrite lookup_seq. split.
  - intros (x & [Hx Hi] & ->). simpl in Hx. by subst x.
  - intros [Hi ->]. by exists i.
Qed.

Lemma elem_of_d3_range a b y : y ∈ d3_range a b <-> a <= y < b.
Proof.
  rewrite list_elem_of_lookup. setoid_rewrite d3_range_lookup. split.
  - intros (i & Hi & ->). lia.
  - intros Hy. exists (Z.to_nat (y - a)). lia.
Qed.

Lemma d3_range_NoDup a b : NoDup (d3_range a b).
Proof.
  apply NoDup_alt. intros i j y Hi Hj.
  apply d3_range_lookup in Hi as [_ ->].
  apply d3_range_lookup in Hj as [_ Hj]. lia.
Qed.

End YearRange.

Section IndexBy.

Context {K B : Type} `{Countable K} (key : B -> K).

Lemma index_by_snoc (l : list B) (d : B) :
  index_by key (l ++ [d]) = <[key d := length l]> (index_by key l).
Proof.
  unfold index_by. rewrite imap_app, foldl_app. simpl.
  by rewrite Nat.add_0_r.
Qed.

(** An index the map yields points at an element with that key. *)
Lemma index_by_Some (l : list B) k i :
  index_by key l !! k = Some i -> exists d, l !! i = Some d ∧ key d = k.
Proof.
  induction l as [|d l IH] using rev_ind; [done|].
  rewrite index_by_snoc. destruct (decide (key d = k)) as [<-|Hne].
  - rewrite lookup_insert_eq. intros [= <-]. exists d.
    split; [|done]. by rewrite lookup_app_r, Nat.sub_diag.
  - rewrite lookup_insert_ne by done. intros (d' & Hd' & Hk)%IH.
    exists d'. split; [|done]. by apply lookup_app_l_Some.
Qed.

(** A key the map lacks is the key of no element. *)
Lemma index_by_None (l : list B) k :
  index_by key l !! k = None -> forall d, d ∈ l -> key d ≠ k.
Proof.
  induction l as [|d l IH] using rev_ind; [by intros _ d ?%elem_of_nil|].
  rewrite index_by_snoc. destruct (decide (key d = k)) as [<-|Hne].
  - by rewrite lookup_insert_eq.
  - rewrite lookup_insert_ne by done. intros Hk d' Hd'.
    apply elem_of_app in Hd' as [Hd'|Hd']; [by apply IH|].
    by apply list_elem_of_singleton in Hd' as ->.
Qed.

(** With distinct keys, the map yields the position of each element. *)
Lemma index_by_NoDup (l : list B) i d :
  NoDup (key <$> l) -> l !! i = Some d -> index_by key l !! key d = Some i.
Proof.
  induction l as [|x l IH] using rev_ind; [done|].
  rewrite fmap_app, NoDup_app. intros (Hl & Hx & _) Hi.
  rewrite index_by_snoc.
  destruct (decide (i < length l)%nat) as [Hlt|Hge].
  - rewrite lookup_app_l in Hi by done.
    rewrite lookup_insert_ne; [by apply IH|].
    intros Heq. apply (Hx (key x)); [|simpl; left].
    rewrite Heq. apply list_elem_of_fmap. exists d.
    split; [done|]. by eapply list_elem_of_lookup_2.
  - rewrite lookup_app_r in Hi by lia.
    destruct (i - length l)%nat as [|n] eqn:Hn; [|done].
    injection Hi as ->. rewrite lookup_insert_eq. f_equal. lia.
Qed.

End IndexBy.

(** ** Aggregation engine: danger-event series *)

Section DangerSeries.

Variables (cursor : Z) (yearRange : list Z).
Hypothesis yearRange_NoDup : NoDup yearRange.

Lemma series_of_years count :
  pt_year <$> series_of cursor yearRange count = yearRange.
Proof.
  unfold series_of. change (map ?f ?l) with (f <$> l).
  rewrite <- list_fmap_compose. simpl. apply list_fmap_id.
Qed.

Lemma series_of_ext c1 c2 :
  (forall y, y ∈ yearRange -> y <= cursor -> c1 y = c2 y) ->
  series_of cursor yearRange c1 = series_of cursor yearRange c2.
Proof.
  intros Hc. unfold series_of. apply map_ext_in. intros y Hy%list_elem_of_In.
  destruct (Z.leb_spec y cursor); [|done]. by rewrite Hc.
Qed.

Lemma event_count_cons ty y e evs :
  event_count ty y (e :: evs) = event_count ty y [e] + event_count ty y evs.
Proof.
  unfold event_count. cbn [List.filter].
  destruct (bool_decide (ev_type e = ty) && (ev_year e =? y)%Z); simpl length; lia.
Qed.

Lemma event_count_other_year ty y e :
  ev_year e ≠ y -> event_count ty y [e] = 0.
Proof.
  intros Hne. unfold event_count. cbn [List.filter].
  destruct (Z.eqb_spec (ev_year e) y); [done|]. by rewrite andb_false_r.
Qed.

Lemma event_count_other_type ty y e :
  ev_type e ≠ ty -> event_count ty y [e] = 0.
Proof.
  intros Hne. unfold event_count. cbn [List.filter].
  by rewrite bool_decide_eq_false_2.
Qed.

Lemma event_count_same ty y e :
  ev_type e = ty -> ev_year e = y -> event_count ty y [e] = 1.
Proof.
  intros Hty Hy. unfold event_count. cbn [List.filter].
  rewrite bool_decide_eq_true_2 by done.
  by destruct (Z.eqb_spec (ev_year e) y).
Qed.

(** Bumping the point of year [y0] adds one to the count of [y0]. *)
Lemma alter_bump_series count idx y0 :
  yearRange !! idx = Some y0 -> y0 <= cursor ->
  alter bump idx (series_of cursor yearRange count)
  = series_of cursor yearRange
      (fun y => count y + if (y0 =? y)%Z then 1 else 0).
Proof.
  intros Hidx Hy0. apply list_eq. intros i. unfold series_of.
  change (map ?f ?l) with (f <$> l).
  destruct (decide (i = idx)) as [->|Hne].
  - rewrite list_lookup_alter_eq, !list_lookup_fmap, Hidx. simpl.
    unfold bump. simpl.
    destruct (Z.leb_spec y0 cursor); [|lia]. by rewrite Z.eqb_refl.
  - rewrite list_lookup_alter_ne, !list_lookup_fmap by done.
    destruct (yearRange !! i) as [y|] eqn:Hi; [|done]. simpl.
    destruct (Z.eqb_spec y0 y) as [->|_].
    + exfalso. apply Hne. by eapply NoDup_lookup.
    + by rewrite Z.add_0_r.
Qed.

(** The index map of a series built over [yearRange] yields the
    position of a year of the range, and nothing for another year. *)
Lemma year_index_series_Some count y idx :
  year_index (series_of cursor yearRange count) !! y = Some idx ->
  yearRange !! idx = Some y.
Proof.
  intros (d & Hd & Hyear)%index_by_Some.
  rewrite <- (series_of_years count), list_lookup_fmap. by rewrite Hd, <- Hyear.
Qed.

Lemma year_index_series_None count y :
  year_index (series_of cursor yearRange count) !! y = None -> y ∉ yearRange.
Proof.
  intros Hnone Hy. rewrite <- (series_of_years count) in Hy.
  apply list_elem_of_fmap in Hy as (d & -> & Hd).
  by apply (index_by_None _ _ _ Hnone d).
Qed.

(** The update of one series by an event dated [yearRange !! idx], not
    behind the cursor: a bump when the type is [ty], nothing otherwise. *)
Lemma bump_if_type ty count idx e :
  yearRange !! idx = Some (ev_year e) -> ev_year e <= cursor ->
  (if bool_decide (ev_type e = ty)
   then alter bump idx (series_of cursor yearRange count)
   else series_of cursor yearRange count)
  = series_of cursor yearRange (fun y => count y + event_count ty y [e]).
Proof.
  intros Hrange Hle. case_bool_decide as Hty.
  - rewrite (alter_bump_series _ _ _ Hrange Hle).
    apply series_of_ext. intros y _ _. f_equal.
    destruct (Z.eqb_spec (ev_year e) y) as [Hy|Hy].
    + by rewrite event_count_same.
    + by rewrite event_count_other_year.
  - apply series_of_ext. intros y _ _.
    rewrite event_count_other_type by done. lia.
Qed.

(** One event moves the pair of series from one pair of counts to the
    next. *)
Lemma count_event_series cY cR e :
  count_event cursor (year_index (series_of cursor yearRange (fun _ => 0)))
    (series_of cursor yearRange cY, series_of cursor yearRange cR) e
  = (series_of cursor yearRange (fun y => cY y + event_count "Y" y [e]),
     series_of cursor yearRange (fun y => cR y + event_count "R" y [e])).
Proof.
  unfold count_event.
  destruct (year_index _ !! ev_year e) as [idx|] eqn:Hidx.
  - apply year_index_series_Some in Hidx.
    destruct (Z.ltb_spec cursor (ev_year e)) as [Hlt|Hle].
    + f_equal; apply series_of_ext; intros y _ Hy;
        rewrite event_count_other_year; lia.
    + cbn [fst snd]. f_equal; by apply bump_if_type.
  - apply year_index_series_None in Hidx.
    f_equal; apply series_of_ext; intros y Hy _;
      rewrite event_count_other_year; try lia;
      intros Heq; apply Hidx; by rewrite Heq.
Qed.

Lemma foldl_count_event evs : forall cY cR,
  foldl (count_event cursor (year_index (series_of cursor yearRange (fun _ => 0))))
    (series_of cursor yearRange cY, series_of cursor yearRange cR) evs
  = (series_of cursor yearRange (fun y => cY y + event_count "Y" y evs),
     series_of cursor yearRange (fun y => cR y + event_count "R" y evs)).
Proof.
  induction evs as [|e evs IH]; intros cY cR.
  - simpl. f_equal; apply series_of_ext; intros y _ _;
      unfold event_count; simpl; lia.
  - cbn [foldl]. rewrite count_event_series, IH.
    f_equal; apply series_of_ext; intros y _ _;
      rewrite (event_count_cons _ _ e evs); lia.
Qed.

End DangerSeries.

Section DangerSeriesResult.

Lemma foldl_all_events {S} (f : S -> DangerEvent -> S) data : forall init,
  foldl (fun series site => foldl f series (dangerEvents site)) init data
  = foldl f init (all_events data).
Proof.
  induction data as [|site data IH]; intros init; [done|].
  cbn [foldl all_events flat_map]. rewrite foldl_app. apply IH.
Qed.

(** [buildDangerSeries] in closed form: over the years of the extent,
    the count of the events of the type in that year up to the cursor,
    [null] behind it. *)
Lemma buildDangerSeries_closed yearExtent cursor data :
  buildDangerSeries yearExtent cursor data
  = (series_of cursor (d3_range yearExtent.1 (yearExtent.2 + 1))
       (fun y => event_count "Y" y (all_events data)),
     series_of cursor (d3_range yearExtent.1 (yearExtent.2 + 1))
       (fun y => event_count "R" y (all_events data))).
Proof.
  unfold buildDangerSeries. rewrite foldl_all_events.
  pose proof (foldl_count_event cursor _
                (d3_range_NoDup yearExtent.1 (yearExtent.2 + 1))
                (all_events data) (fun _ => 0) (fun _ => 0)) as H.
  unfold series_of in H at 1 2 3. rewrite H. by f_equal.
Qed.

Lemma series_of_point cursor yearRange count p :
  p ∈ series_of cursor yearRange count ->
  (cursor < pt_year p -> pt_value p = None)
  ∧ (pt_year p <= cursor -> pt_value p = Some (count (pt_year p))).
Proof.
  unfold series_of. intros (y & <- & _)%list_elem_of_In%in_map_iff.
  cbn [pt_year pt_value]. destruct (Z.leb_spec y cursor); split; (done || lia).
Qed.

Lemma event_count_within yearExtent ty y data :
  yearExtent.1 <= y <= yearExtent.2 ->
  event_count ty y (all_events (map (within_extent yearExtent) data))
  = event_count ty y (all_events data).
Proof.
  intros Hy. unfold event_count. f_equal. f_equal.
  induction data as [|site data IH]; [done|].
  cbn [map all_events flat_map]. rewrite !List.filter_app. f_equal; [|apply IH].
  cbn [within_extent dangerEvents].
  induction (dangerEvents site) as [|e evs IHe]; [done|].
  cbn [List.filter].
  destruct (Z.eqb_spec (ev_year e) y) as [Heq|Hne].
  - replace ((yearExtent.1 <=? ev_year e)%Z && (ev_year e <=? yearExtent.2)%Z)
      with true by (symmetry; apply andb_true_iff; split; apply Z.leb_le; lia).
    cbn [List.filter]. destruct (Z.eqb_spec (ev_year e) y); [|done].
    destruct (bool_decide (ev_type e = ty)); simpl; by rewrite IHe.
  - rewrite andb_false_r.
    destruct ((yearExtent.1 <=? ev_year e)%Z && (ev_year e <=? yearExtent.2)%Z);
      [|done].
    cbn [List.filter]. destruct (Z.eqb_spec (ev_year e) y); [done|].
    by rewrite andb_false_r.
Qed.

End DangerSeriesResult.

(** C7.  Both series run over the years of the extent.  A point behind
    the cursor year carries [null] (not zero); a point at or before the
    cursor year carries the number of events of its type dated in exactly
    that year, over all danger events of the filtered sites. *)
Theorem danger_series_values (yearExtent : Z * Z) (cursor : Z)
    (data : list Site) (p : Point) :
  (pt_year <$> (buildDangerSeries yearExtent cursor data).1
   = d3_range yearExtent.1 (yearExtent.2 + 1)
   ∧ pt_year <$> (buildDangerSeries yearExtent cursor data).2
     = d3_range yearExtent.1 (yearExtent.2 + 1))
  ∧ (p ∈ (buildDangerSeries yearExtent cursor data).1 ->
     (cursor < pt_year p -> pt_value p = None ∧ pt_value p ≠ Some 0)
     ∧ (pt_year p <= cursor ->
        pt_value p = Some (event_count "Y" (pt_year p) (all_events data))))
  ∧ (p ∈ (buildDangerSeries yearExtent cursor data).2 ->
     (cursor < pt_year p -> pt_value p = None ∧ pt_value p ≠ Some 0)
     ∧ (pt_year p <= cursor ->
        pt_value p = Some (event_count "R" (pt_year p) (all_events data)))).
Proof.
  rewrite buildDangerSeries_closed. cbn [fst snd].
  split; [split; apply series_of_years|].
  split; intros [Hnull Hcount]%series_of_point;
    (split; [intros Hp; rewrite (Hnull Hp); by split|exact Hcount]).
Qed.

(** C10.  Danger events dated outside the year extent change nothing:
    the series are those of the same sites without these events, whether
    or not the events lie before the cursor year. *)
Theorem danger_series_ignores_outside_extent (yearExtent : Z * Z)
    (cursor : Z) (data : list Site) :
  buildDangerSeries yearExtent cursor data
  = buildDangerSeries yearExtent cursor (map (within_extent yearExtent) data).
Proof.
  rewrite !buildDangerSeries_closed.
  f_equal; apply series_of_ext; intros y Hy%elem_of_d3_range _;
    symmetry; apply event_count_within; lia.
Qed.

(** ** Aggregation engine: stacked series *)

Section StackData.

Variables (mode : ViewMode) (keys : list string).

Lemma blank_record_snoc ks k y :
  blank_record (ks ++ [k]) y = <[k := VNum 0]> (blank_record ks y).
Proof. unfold blank_record. by rewrite foldl_app. Qed.

Lemma blank_record_key ks y key :
  key ∈ ks -> blank_record ks y !! key = Some (VNum 0).
Proof.
  induction ks as [|k ks IH] using rev_ind; [by intros ?%elem_of_nil|].
  rewrite blank_record_snoc. intros Hin.
  destruct (decide (k = key)) as [->|Hne]; [by rewrite lookup_insert_eq|].
  rewrite lookup_insert_ne by done. apply IH.
  apply elem_of_app in Hin as [Hin|Hin]; [done|].
  apply list_elem_of_singleton in Hin. congruence.
Qed.

Lemma blank_record_other ks y key :
  key ∉ ks ->
  blank_record ks y !! key
  = ({["year" := VNum y]} : gmap string value) !! key.
Proof.
  induction ks as [|k ks IH] using rev_ind; [done|].
  rewrite blank_record_snoc. intros Hin.
  rewrite lookup_insert_ne; [apply IH|]; set_solver.
Qed.

Lemma blank_record_numeric y : numeric_on keys (blank_record keys y).
Proof. intros key Hkey. exists 0. by apply blank_record_key. Qed.

(** Counting a site keeps the number of records and keeps numbers
    under the keys. *)
Lemma count_site_length yearMap recs site :
  length (count_site mode yearMap recs site) = length recs.
Proof.
  unfold count_site. destruct (yearMap !! _); [|done]. apply length_alter.
Qed.

Lemma count_site_numeric yearMap recs site :
  Forall (numeric_on keys) recs ->
  Forall (numeric_on keys) (count_site mode yearMap recs site).
Proof.
  intros Hrecs. unfold count_site. destruct (yearMap !! _) as [i|]; [|done].
  apply Forall_alter; [done|]. intros r _ Hr key Hkey.
  destruct (decide (groupingKey mode site = key)) as [<-|Hne].
  - rewrite lookup_insert_eq. destruct (Hr _ Hkey) as [n ->].
    by exists (n + 1).
  - rewrite lookup_insert_ne by done. by apply Hr.
Qed.

Lemma foldl_count_site yearMap data : forall recs,
  Forall (numeric_on keys) recs ->
  length (foldl (count_site mode yearMap) recs data) = length recs
  ∧ Forall (numeric_on keys) (foldl (count_site mode yearMap) recs data).
Proof.
  induction data as [|site data IH]; intros recs Hrecs; [done|].
  cbn [foldl].
  destruct (IH (count_site mode yearMap recs site)) as [Hlen Hnum];
    [by apply count_site_numeric|].
  split; [|done]. by rewrite Hlen, count_site_length.
Qed.

(** The sum over the keys reads the record under the keys only. *)
Lemma sum_keys_ext (r1 r2 : gmap string value) :
  (forall key, key ∈ keys -> r1 !! key = r2 !! key) ->
  sum_keys keys r1 = sum_keys keys r2.
Proof.
  unfold sum_keys. generalize (VNum 0).
  induction keys as [|k ks IH]; intros acc Hext; [done|].
  cbn [foldl]. rewrite (Hext k) by left. apply IH.
  intros key Hkey. apply Hext. by right.
Qed.

Lemma sum_keys_numeric (r : gmap string value) :
  numeric_on keys r -> exists n, sum_keys keys r = VNum n.
Proof.
  unfold sum_keys, numeric_on. generalize 0.
  induction keys as [|k ks IH]; intros acc Hnum; [by exists acc|].
  cbn [foldl]. destruct (Hnum k) as [n ->]; [left|].
  cbn [num_of default plus]. apply IH. intros key Hkey. apply Hnum. by right.
Qed.

End StackData.

(** The stacked series away from a key named total.  For an extent with
    [yearMin <= yearMax] and keys none of which is the name total,
    [prepareStackData] returns [yearMax - yearMin + 1] records, and in
    each of them the total is a number, the sum of the record's fields
    under the keys. *)
Theorem stacked_series_length_and_total (mode : ViewMode)
    (regionDomain : list string) (yearExtent : Z * Z) (data : list Site) :
  yearExtent.1 <= yearExtent.2 ->
  "total" ∉ (prepareStackData mode regionDomain yearExtent data).1 ->
  Z.of_nat (length (prepareStackData mode regionDomain yearExtent data).2)
  = yearExtent.2 - yearExtent.1 + 1
  ∧ (forall record,
       record ∈ (prepareStackData mode regionDomain yearExtent data).2 ->
       exists n,
         record !! "total" = Some (VNum n)
         ∧ sum_keys (prepareStackData mode regionDomain yearExtent data).1 record
           = VNum n).
Proof.
  unfold prepareStackData. cbn [fst snd].
  set (keys := match mode with
               | ByCategory => categoryDomain
               | ByRegion => regionDomain
               end).
  set (recs0 := map (blank_record keys) (d3_range yearExtent.1 (yearExtent.2 + 1))).
  intros Hext Htotal.
  destruct (foldl_count_site mode keys (year_map recs0) data recs0) as [Hlen Hnum].
  { unfold recs0. change (map ?f ?l) with (f <$> l). apply Forall_fmap, Forall_forall.
    intros y _. apply blank_record_numeric. }
  split.
  - rewrite length_map, Hlen. unfold recs0.
    rewrite length_map, d3_range_length. lia.
  - intros record (r & <- & Hr%list_elem_of_In)%list_elem_of_In%in_map_iff.
    rewrite Forall_forall in Hnum.
    destruct (sum_keys_numeric keys r (Hnum r Hr)) as [n Hn].
    exists n. rewrite lookup_insert_eq. split; [by rewrite Hn|].
    rewrite <- Hn. apply sum_keys_ext. intros key Hkey.
    apply lookup_insert_ne. by intros <-.
Qed.

Lemma stacked_series_length_and_total_scenario :
  Z.of_nat (length (prepareStackData ByCategory [] (1980, 2000) Sample.scenario).2)
  = 21
  ∧ (forall record,
       record ∈ (prepareStackData ByCategory [] (1980, 2000) Sample.scenario).2 ->
       exists n,
         record !! "total" = Some (VNum n)
         ∧ sum_keys categoryDomain record = VNum n).
Proof.
  apply (stacked_series_length_and_total ByCategory [] (1980, 2000) Sample.scenario).
  - simpl. lia.
  - cbn [prepareStackData fst]. apply (bool_decide_unpack _). by vm_compute.
Defined.

(** C5 at a key set that holds the name total.  Two raw records of 1980,
    of the regions A and total, give the extent 1980-1980 and the region
    domain A, total.  In region mode the one record of the stacked series
    then has 1 under A and the total 2 under total: its fields under the
    keys add up to 3, not to its total. *)
Theorem stacked_total_key_collision :
  let sites := init_sites Sample.raw_total_region in
  let data := getFilteredSites sites (Sample.state ∅ None) in
  let stack := prepareStackData ByRegion (uniqueRegions sites) (1980, 1980) data in
  extent (map year sites) = Some (1980, 1980)
  ∧ stack.1 = ["A"; "total"]
  ∧ length stack.2 = 1%nat
  ∧ Forall
      (fun record =>
         record !! "A" = Some (VNum 1)
         ∧ record !! "total" = Some (VNum 2)
         ∧ sum_keys stack.1 record = VNum 3)
      stack.2.
Proof.
  cbv zeta. split; [reflexivity|]. split; [reflexivity|]. split; [reflexivity|].
  apply Forall_cons. split; [|by vm_compute].
  split; [|split]; vm_compute; reflexivity.
Qed.

Lemma hierarchy_leaves_count_pairs_witness :
  exists n,
    leaf_at "Europe" "B" "Natural" (buildHierarchy Sample.scenario) = Some n
    ∧ (1 <= n)%nat.
Proof.
  apply (proj2 (proj2 (hierarchy_leaves_count_pairs Sample.scenario))
           (Sample.entry "Europe" 1995 "Natural" ["A"; "B"]
              [ {| ev_type := "Y"; ev_year := 1999 |};
                {| ev_type := "Y"; ev_year := 1970 |} ]) "B").
  - right. left.
  - right. left.
Defined.

Lemma danger_series_values_witness :
  {| pt_year := 2000; pt_value := None |}
    ∈ (buildDangerSeries (1995, 2001) 1999 Sample.scenario).1
  ∧ pt_value {| pt_year := 2000; pt_value := None |} = None
  ∧ pt_value {| pt_year := 2000; pt_value := None |} ≠ Some 0.
Proof.
  assert (Hin : {| pt_year := 2000; pt_value := None |}
                  ∈ (buildDangerSeries (1995, 2001) 1999 Sample.scenario).1).
  { apply list_elem_of_In. vm_compute. tauto. }
  split; [exact Hin|].
  apply (proj1 (proj1 (proj2 (danger_series_values (1995, 2001) 1999
                                Sample.scenario _)) Hin)).
  simpl. lia.
Defined.

(** ** The scenario of the specification *)

Section Scenario.

(** Both sites pass the filter at the cursor year 1999. *)
Example scenario_filtered :
  getFilteredSites Sample.scenario
    (State.with_year 1999 (Sample.state ∅ None))
  = Sample.scenario.
Proof. reflexivity. Qed.

(** One leaf under A/Cultural, one under A/Natural, one under
    B/Natural, each of value 1: three leaves for two sites. *)
Example scenario_hierarchy :
  buildHierarchy Sample.scenario
  = Internal "World"
      [ Internal "Europe"
          [ Internal "A" [Leaf "Cultural" 1; Leaf "Natural" 1];
            Internal "B" [Leaf "Natural" 1] ] ].
Proof. reflexivity. Qed.

(** The series of type Y: 1 in 1999, 0 in the other years up to the
    cursor, [null] behind it; the event of 1970 is counted nowhere. *)
Example scenario_danger_series :
  (buildDangerSeries (1996, 2001) 1999 Sample.scenario).1
  = [ {| pt_year := 1996; pt_value := Some 0 |};
      {| pt_year := 1997; pt_value := Some 0 |};
      {| pt_year := 1998; pt_value := Some 0 |};
      {| pt_year := 1999; pt_value := Some 1 |};
      {| pt_year := 2000; pt_value := None |};
      {| pt_year := 2001; pt_value := None |} ].
Proof. vm_compute. reflexivity. Qed.

(** The stacked series by category: the record of 1995 counts the
    Natural site and nothing else. *)
Example scenario_stacked_1995 :
  Forall
    (fun record =>
       record !! "year" = Some (VNum 1995)
       ∧ record !! "Natural" = Some (VNum 1)
       ∧ record !! "Cultural" = Some (VNum 0)
       ∧ record !! "total" = Some (VNum 1))
    (prepareStackData ByCategory [] (1995, 1995) Sample.scenario).2.
Proof.
  apply Forall_cons. split; [|by vm_compute].
  repeat split; vm_compute; reflexivity.
Qed.

(** The extent [d3.extent] computes has its ends in order. *)
Lemma extent_ordered l lo hi : extent l = Some (lo, hi) -> lo <= hi.
Proof.
  destruct l as [|y l]; [done|]. intros [= <- <-].
  assert (H : forall a b, a <= b -> foldl Z.min a l <= foldl Z.max b l).
  { induction l as [|x l IH]; intros a b Hab; [done|].
    cbn [foldl]. apply IH. lia. }
  by apply H.
Qed.

End Scenario.

(** * Further properties of the code *)

(** ** Normaliser: order, shape of the sites, parsed danger events *)

Section SortByYear.

Lemma insert_by_year_sorted s l :
  StronglySorted (fun a b => year a <= year b) l ->
  StronglySorted (fun a b => year a <= year b) (insert_by_year s l).
Proof.
  induction 1 as [|t l Hl IH Ht]; cbn [insert_by_year].
  - repeat constructor.
  - destruct (Z.ltb_spec (year t) (year s)) as [Hlt|Hge].
    + constructor; [exact IH|].
      rewrite insert_by_year_perm. constructor; [lia|exact Ht].
    + constructor; [by constructor|].
      constructor; [lia|]. eapply Forall_impl; [exact Ht|].
      intros x Hx. simpl in *. lia.
Qed.

Lemma sort_by_year_sorted l :
  StronglySorted (fun a b => year a <= year b) (sort_by_year l).
Proof.
  induction l as [|s l IH]; [constructor|].
  cbn [sort_by_year foldr]. by apply insert_by_year_sorted.
Qed.

(** The sites of one year keep their order through the insertion. *)
Lemma insert_by_year_stable y s l :
  List.filter (fun t => (year t =? y)%Z) (insert_by_year s l)
  = List.filter (fun t => (year t =? y)%Z) (s :: l).
Proof.
  induction l as [|t l IH]; [done|]. cbn [insert_by_year].
  destruct (Z.ltb_spec (year t) (year s)) as [Hlt|Hge]; [|done].
  cbn [List.filter] in *. rewrite IH.
  destruct (Z.eqb_spec (year t) y), (Z.eqb_spec (year s) y); (done || lia).
Qed.

Lemma sort_by_year_stable y l :
  List.filter (fun t => (year t =? y)%Z) (sort_by_year l)
  = List.filter (fun t => (year t =? y)%Z) l.
Proof.
  induction l as [|s l IH]; [done|].
  cbn [sort_by_year foldr]. rewrite insert_by_year_stable.
  cbn [List.filter]. fold (sort_by_year l). by rewrite IH.
Qed.

End SortByYear.

(** X1.  The site list of [init] is in ascending order of year, and the
    sort is stable: the sites of any one year stand in the order of
    their raw records. *)
Theorem init_sites_sorted_stable (rawSites : list RawSite) :
  StronglySorted (fun a b => year a <= year b) (init_sites rawSites)
  ∧ (forall y,
        List.filter (fun t => (year t =? y)%Z) (init_sites rawSites)
        = List.filter (fun t => (year t =? y)%Z) (omap kept_site rawSites)).
Proof.
  rewrite init_sites_kept. split; [apply sort_by_year_sorted|].
  intros y. apply sort_by_year_stable.
Qed.

Section ParsedShapes.

Lemma digit_val_bounds c : Text.is_digit c = true -> 0 <= Text.digit_val c <= 9.
Proof.
  unfold Text.is_digit, Text.digit_val. intros [H1 H2]%andb_true_iff.
  apply Nat.leb_le in H1, H2. lia.
Qed.

(** Four digits read as a number between 0 and 9999. *)
Lemma digits4_here_number s m :
  Text.digits4_here s = Some m -> 0 <= Text.to_number m <= 9999.
Proof.
  intros (a & b & c & d & rest & _ & -> & Ha & Hb & Hc & Hd)%digits4_here_spec.
  apply digit_val_bounds in Ha, Hb, Hc, Hd.
  unfold Text.to_number. cbn [list_ascii_of_string fold_left]. lia.
Qed.

Lemma parseYear_bounds v y : parseYear v = Some y -> 0 <= y <= 9999.
Proof.
  unfold parseYear. destruct (negb (truthy v)); [done|].
  destruct (Text.match_d4 (default "" v)) as [m|] eqn:Hm; [|done].
  intros [= <-].
  apply match_d4_Some in Hm as (pre & post & _ & Hd & _).
  by eapply digits4_here_number.
Qed.

Lemma danger_here_spec s t d n :
  Text.danger_here s = Some (t, d, n) ->
  (exists c, t = String c EmptyString ∧ Text.is_upper c = true)
  ∧ 0 <= Text.to_number d <= 9999.
Proof.
  unfold Text.danger_here. destruct s as [|c s1]; [done|].
  destruct (Text.is_upper c) eqn:Hc; [|done].
  destruct (Text.span Text.is_space s1) as [ws s2].
  destruct (Text.digits4_here s2) as [d'|] eqn:Hd; [|done].
  intros [= <- <- <-]. split; [by exists c|]. by eapply digits4_here_number.
Qed.

End ParsedShapes.

Lemma parseDangerList_years (text : option string) :
  Forall (fun e => 0 <= ev_year e <= 9999) (parseDangerList text).
Proof.
  unfold parseDangerList. destruct (negb (truthy text)); [constructor|].
  apply scan_Forall. intros s e n H.
  destruct (Text.danger_here s) as [[[t d] k]|] eqn:Hh; [|done].
  injection H as <- _. cbn [ev_year]. by eapply danger_here_spec.
Qed.

(** X2.  Every event [parseDangerList] returns has a single capital
    letter as its type and a year between 0 and 9999; a missing or empty
    text gives no event. *)
Theorem parseDangerList_events (text : option string) :
  Forall
    (fun e =>
       (exists c, ev_type e = String c EmptyString ∧ Text.is_upper c = true)
       ∧ 0 <= ev_year e <= 9999)
    (parseDangerList text)
  ∧ (truthy text = false -> parseDangerList text = []).
Proof.
  split.
  - unfold parseDangerList. destruct (negb (truthy text)); [constructor|].
    apply scan_Forall. intros s e n H.
    destruct (Text.danger_here s) as [[[t d] k]|] eqn:Hh; [|done].
    injection H as <- _. cbn [ev_type ev_year]. by eapply danger_here_spec.
  - intros H. unfold parseDangerList. by rewrite H.
Qed.

Lemma parseDangerList_events_witness : parseDangerList (Some "") = [].
Proof. apply (proj2 (parseDangerList_events (Some ""))). reflexivity. Defined.

(** X3.  Every site of [init] has a year between 1 and 9999, finite
    coordinates, at least one country, one of the four categories, the
    countries joined as its [statesText], and well-formed danger events. *)
Theorem init_sites_shape (rawSites : list RawSite) (s : Site) :
  s ∈ init_sites rawSites ->
  1 <= year s <= 9999
  ∧ isFinite (lat s) = true ∧ isFinite (lon s) = true
  ∧ countries s ≠ []
  ∧ category s ∈ categoryDomain
  ∧ statesText s = Text.join ", " (countries s)
  ∧ Forall (fun e => 0 <= ev_year e <= 9999) (dangerEvents s).
Proof.
  intros (d & _ & Hf & Hk)%init_sites_origin.
  assert (Hvalid : valid_site (Some s) = true).
  { unfold kept_site in Hk. rewrite Hf in Hk.
    by destruct (valid_site (Some s)). }
  cbn [valid_site] in Hvalid.
  apply andb_true_iff in Hvalid as [[Hlat Hlon]%andb_true_iff _].
  unfold formatSite in Hf.
  destruct (parseYear (date_text d)) as [y|] eqn:Hy; [|done].
  apply parseYear_bounds in Hy.
  destruct (Z.eqb_spec y 0) as [|Hnz]; [done|]. injection Hf as <-.
  cbn [year lat lon countries category statesText dangerEvents] in *.
  repeat split; try done; try lia.
  - by destruct (states_names d) as [[|c l]|].
  - change categoryDomain with (known_categories ++ ["Other"])%list.
    apply elem_of_app.
    destruct (raw_category d) as [c|]; [|right; left].
    case_bool_decide as Hc; [by left|right; left].
  - apply parseDangerList_years.
Qed.

Lemma init_sites_shape_witness :
  1 <= year (Sample.site ["i"]) <= 9999
  ∧ isFinite (lat (Sample.site ["i"])) = true
  ∧ isFinite (lon (Sample.site ["i"])) = true
  ∧ countries (Sample.site ["i"]) ≠ []
  ∧ category (Sample.site ["i"]) ∈ categoryDomain
  ∧ statesText (Sample.site ["i"]) = Text.join ", " (countries (Sample.site ["i"]))
  ∧ Forall (fun e => 0 <= ev_year e <= 9999) (dangerEvents (Sample.site ["i"])).
Proof.
  apply (init_sites_shape [Sample.raw "1999" (Some "(i)")] (Sample.site ["i"])).
  vm_compute. left.
Defined.

(** ** [init]: the year extent, the region domain, the first view *)

Section Extent.

Lemma foldl_min_le a l : foldl Z.min a l <= a ∧ Forall (fun y => foldl Z.min a l <= y) l.
Proof.
  revert a. induction l as [|x l IH]; intros a; cbn [foldl]; [by split|].
  destruct (IH (Z.min a x)) as [H1 H2]. split; [lia|].
  constructor; [lia|exact H2].
Qed.

Lemma foldl_max_ge a l : a <= foldl Z.max a l ∧ Forall (fun y => y <= foldl Z.max a l) l.
Proof.
  revert a. induction l as [|x l IH]; intros a; cbn [foldl]; [by split|].
  destruct (IH (Z.max a x)) as [H1 H2]. split; [lia|].
  constructor; [lia|exact H2].
Qed.

Lemma foldl_min_attained a l : foldl Z.min a l ∈ a :: l.
Proof.
  revert a. induction l as [|x l IH]; intros a; cbn [foldl]; [left|].
  specialize (IH (Z.min a x)). apply elem_of_cons in IH as [->|IH].
  - destruct (Z.min_spec a x) as [[_ ->]|[_ ->]]; [left|right; left].
  - by do 2 right.
Qed.

Lemma foldl_max_attained a l : foldl Z.max a l ∈ a :: l.
Proof.
  revert a. induction l as [|x l IH]; intros a; cbn [foldl]; [left|].
  specialize (IH (Z.max a x)). apply elem_of_cons in IH as [->|IH].
  - destruct (Z.max_spec a x) as [[_ ->]|[_ ->]]; [right; left|left].
  - by do 2 right.
Qed.

(** [d3.extent] returns the least and the greatest of the values. *)
Lemma extent_spec l lo hi :
  extent l = Some (lo, hi) ->
  lo ∈ l ∧ hi ∈ l ∧ Forall (fun y => lo <= y <= hi) l.
Proof.
  destruct l as [|a l]; [done|]. intros [= <- <-].
  split; [apply foldl_min_attained|]. split; [apply foldl_max_attained|].
  destruct (foldl_min_le a l) as [Hmin Hmins].
  destruct (foldl_max_ge a l) as [Hmax Hmaxs].
  constructor; [lia|].
  apply Forall_forall. intros y Hy.
  rewrite Forall_forall in Hmins, Hmaxs. split; [by apply Hmins|by apply Hmaxs].
Qed.

End Extent.

(** X4.  The extent [init] computes is spanned by the sites: both ends
    are years of sites and every site's year lies between them; with the
    state [init] leaves (cursor at the last year, no filter set) the
    filter returns every site. *)
Theorem init_extent_and_first_view (sites : list Site) (lo hi : Z) :
  extent (map year sites) = Some (lo, hi) ->
  (exists s, s ∈ sites ∧ year s = lo)
  ∧ (exists s, s ∈ sites ∧ year s = hi)
  ∧ (forall s, s ∈ sites -> lo <= year s <= hi)
  ∧ getFilteredSites sites (initial_state hi) = sites.
Proof.
  intros (Hlo & Hhi & Hall)%extent_spec.
  change (map year sites) with (year <$> sites) in *.
  apply list_elem_of_fmap in Hlo as (s1 & -> & Hs1).
  apply list_elem_of_fmap in Hhi as (s2 & -> & Hs2).
  rewrite Forall_fmap, Forall_forall in Hall.
  split; [by exists s1|]. split; [by exists s2|]. split; [exact Hall|].
  unfold getFilteredSites. apply forallb_filter_id, forallb_forall.
  intros s Hs%list_elem_of_In. specialize (Hall s Hs). simpl in Hall.
  unfold passes, initial_state. cbn [State.year State.dangerOnly State.searchTerm
    State.selectedStandards State.sunburstSelection truthy andb].
  destruct (Z.ltb_spec (year s2) (year s)); [lia|].
  by rewrite size_empty.
Qed.

Lemma init_extent_and_first_view_witness :
  getFilteredSites Sample.scenario (initial_state 1995) = Sample.scenario.
Proof.
  apply (init_extent_and_first_view Sample.scenario 1980 1995). reflexivity.
Defined.

Section Unique.

Lemma unique_snoc l v :
  unique (l ++ [v])
  = if bool_decide (v ∈ unique l) then unique l else (unique l ++ [v])%list.
Proof. unfold unique. by rewrite foldl_app. Qed.

Lemma elem_of_unique l x : x ∈ unique l <-> x ∈ l.
Proof.
  induction l as [|v l IH] using rev_ind; [done|].
  rewrite unique_snoc, elem_of_app, list_elem_of_singleton, <- IH.
  case_bool_decide as Hv; [|by rewrite elem_of_app, list_elem_of_singleton].
  split; [by left|]. intros [Hx|Hx]; [done|by rewrite Hx].
Qed.

Lemma unique_NoDup l : NoDup (unique l).
Proof.
  induction l as [|v l IH] using rev_ind; [constructor|].
  rewrite unique_snoc. case_bool_decide as Hv; [done|].
  apply NoDup_app. split; [done|]. split; [|apply NoDup_singleton].
  intros x Hx Hx'%list_elem_of_singleton. by rewrite Hx' in Hx.
Qed.

Lemma insert_string_perm v l : insert_string v l ≡ₚ v :: l.
Proof.
  induction l as [|w l IH]; simpl; [done|].
  destruct (String.ltb w v); [|done]. rewrite IH. apply Permutation_swap.
Qed.

Lemma sort_strings_perm l : sort_strings l ≡ₚ l.
Proof.
  induction l as [|v l IH]; simpl; [done|].
  rewrite insert_string_perm. by rewrite IH.
Qed.

End Unique.

(** X5.  The region domain [init] builds holds exactly the regions of
    the sites, each once; so every site's grouping key in region mode is
    one of the keys of the stacked series. *)
Theorem uniqueRegions_spec (sites : list Site) :
  NoDup (uniqueRegions sites)
  ∧ (forall r, r ∈ uniqueRegions sites <-> exists s, s ∈ sites ∧ region s = r)
  ∧ (forall s, s ∈ sites -> groupingKey ByRegion s ∈ uniqueRegions sites).
Proof.
  assert (Hin : forall r,
             r ∈ uniqueRegions sites <-> exists s, s ∈ sites ∧ region s = r).
  { intros r. unfold uniqueRegions.
    rewrite sort_strings_perm, elem_of_unique.
    change (map region sites) with (region <$> sites).
    rewrite list_elem_of_fmap. split; intros (s & ? & ?); by exists s. }
  split; [|split; [exact Hin|]].
  - unfold uniqueRegions. rewrite sort_strings_perm. apply unique_NoDup.
  - intros s Hs. apply Hin. by exists s.
Qed.

(** ** Filter engine: what every result satisfies, and how the controls
    move it *)

Section FilterParts.

(** The cases of the drill part: which fields are set, which tests hold. *)
Ltac drill_cases st :=
  destruct (State.sunburstSelection st) as [sel|]; [|done];
  destruct (truthy (sel_region sel)), (truthy (sel_country sel)),
    (truthy (sel_category sel)); cbn [negb orb andb]; try done;
  repeat (destruct (bool_decide _); cbn [negb orb andb]; try done).

(** The filter callback is the conjunction of its five tests. *)
Lemma passes_parts st s :
  passes st s
  = negb (State.year st <? year s)%Z
    && negb (State.dangerOnly st && negb (danger s))
    && search_ok st s && criteria_ok st s
    && drill_ok (State.sunburstSelection st) s.
Proof.
  unfold passes, search_ok, criteria_ok, drill_ok.
  destruct (State.year st <? year s)%Z; [done|].
  destruct (State.dangerOnly st && negb (danger s)); [done|].
  destruct (truthy (Some (State.searchTerm st))); cbn [negb orb andb].
  - destruct (Text.includes _ _); cbn [negb andb]; [|done].
    destruct (bool_decide (0 < size (State.selectedStandards st))%nat);
      cbn [negb orb andb].
    + destruct (match State.standardMode st with OR => _ | AND => _ end);
        cbn [negb andb]; [|done].
      drill_cases st.
    + drill_cases st.
  - destruct (bool_decide (0 < size (State.selectedStandards st))%nat);
      cbn [negb orb andb].
    + destruct (match State.standardMode st with OR => _ | AND => _ end);
        cbn [negb andb]; [|done].
      drill_cases st.
    + drill_cases st.
Qed.

Lemma filter_sublist {A} (f : A -> bool) (l : list A) :
  List.filter f l `sublist_of` l.
Proof.
  induction l as [|x l IH]; simpl; [done|].
  destruct (f x); by constructor.
Qed.

Lemma filter_idem {A} (f : A -> bool) (l : list A) :
  List.filter f (List.filter f l) = List.filter f l.
Proof.
  induction l as [|x l IH]; simpl; [done|].
  destruct (f x) eqn:Hx; simpl; [|done]. by rewrite Hx, IH.
Qed.

End FilterParts.

(** X6.  The filter returns a sublist of the sites, in their order; every
    site it returns is inscribed no later than the cursor year and, with
    the danger-only box checked, is in danger; filtering the result
    again with the same state changes nothing. *)
Theorem filter_result (sites : list Site) (st : State.t) :
  getFilteredSites sites st `sublist_of` sites
  ∧ (forall s, s ∈ getFilteredSites sites st ->
       s ∈ sites ∧ year s <= State.year st
       ∧ (State.dangerOnly st = true -> danger s = true))
  ∧ getFilteredSites (getFilteredSites sites st) st = getFilteredSites sites st.
Proof.
  unfold getFilteredSites. split; [apply filter_sublist|].
  split; [|apply filter_idem].
  intros s [Hs Hp]%list_elem_of_In%filter_In. split; [by apply list_elem_of_In|].
  rewrite passes_parts in Hp.
  apply andb_true_iff in Hp as [Hp _]. apply andb_true_iff in Hp as [Hp _].
  apply andb_true_iff in Hp as [Hp _]. apply andb_true_iff in Hp as [Hy Hd].
  split.
  - destruct (Z.ltb_spec (State.year st) (year s)); [done|lia].
  - intros Hdo. rewrite Hdo in Hd. by destruct (danger s).
Qed.

Lemma filter_result_witness :
  Sample.site [] ∈ [Sample.site []]
  ∧ year (Sample.site []) <= 2024
  ∧ (false = true -> danger (Sample.site []) = true).
Proof.
  apply (proj1 (proj2 (filter_result [Sample.site []] (Sample.state ∅ None)))).
  vm_compute. left.
Defined.

(** X7.  With no criterion selected the criteria mode does not matter:
    the filter returns the same sites in mode OR and in mode AND. *)
Theorem filter_no_criteria_ignores_mode (sites : list Site) (st : State.t)
    (m : StandardMode) :
  State.selectedStandards st = ∅ ->
  getFilteredSites sites (State.with_standardMode m st)
  = getFilteredSites sites st.
Proof.
  intros Hsel. unfold getFilteredSites. apply filter_ext. intros s.
  rewrite !passes_parts. unfold criteria_ok.
  cbn [State.with_standardMode State.year State.dangerOnly
       State.selectedStandards State.standardMode State.sunburstSelection].
  rewrite Hsel, size_empty.
  by rewrite (bool_decide_eq_false_2 (0 < 0)%nat) by lia.
Qed.

Lemma filter_no_criteria_ignores_mode_witness :
  getFilteredSites Sample.scenario
    (State.with_standardMode AND (Sample.state ∅ None))
  = getFilteredSites Sample.scenario (Sample.state ∅ None).
Proof.
  apply (filter_no_criteria_ignores_mode Sample.scenario (Sample.state ∅ None) AND).
  reflexivity.
Defined.

(** X8.  Moving the cursor year forward only adds sites: the result for
    an earlier cursor year is a sublist of the result for a later one. *)
Theorem filter_grows_with_cursor (sites : list Site) (st : State.t)
    (y1 y2 : Z) :
  y1 <= y2 ->
  getFilteredSites sites (State.with_year y1 st)
    `sublist_of` getFilteredSites sites (State.with_year y2 st).
Proof.
  intros Hy. apply filter_mono. intros s. rewrite !passes_parts.
  change (search_ok (State.with_year ?y st) s) with (search_ok st s).
  change (criteria_ok (State.with_year ?y st) s) with (criteria_ok st s).
  cbn [State.with_year State.year State.dangerOnly State.sunburstSelection].
  destruct (Z.ltb_spec y1 (year s)); [done|].
  destruct (Z.ltb_spec y2 (year s)); [lia|done].
Qed.

Lemma filter_grows_with_cursor_witness :
  getFilteredSites Sample.scenario (State.with_year 1990 (Sample.state ∅ None))
    `sublist_of`
  getFilteredSites Sample.scenario (State.with_year 1999 (Sample.state ∅ None)).
Proof.
  apply (filter_grows_with_cursor Sample.scenario (Sample.state ∅ None) 1990 1999).
  lia.
Defined.

Section CriteriaBoxes.

Lemma criteria_ok_with st sel s :
  criteria_ok (with_selectedStandards sel st) s
  = (negb (bool_decide (0 < size sel)%nat)
     || match State.standardMode st with
        | OR => existsb (fun c => bool_decide (c ∈ sel)) (criteria s)
        | AND => forallb (fun c => bool_decide (c ∈ criteria s)) (elements sel)
        end).
Proof. reflexivity. Qed.

(** Only the criteria test reads the selected criteria. *)
Lemma passes_with_selectedStandards st sel s :
  passes (with_selectedStandards sel st) s
  = negb (State.year st <? year s)%Z
    && negb (State.dangerOnly st && negb (danger s))
    && search_ok st s && criteria_ok (with_selectedStandards sel st) s
    && drill_ok (State.sunburstSelection st) s.
Proof. by rewrite passes_parts. Qed.

Lemma size_pos_nonempty (X : gset string) :
  bool_decide (0 < size X)%nat = true <-> X ≠ ∅.
Proof.
  rewrite bool_decide_eq_true. split.
  - intros Hs ->. rewrite size_empty in Hs. lia.
  - intros Hne. assert (size X ≠ 0%nat); [|lia].
    apply size_non_empty_iff. by intros ?%leibniz_equiv.
Qed.

(** In mode AND a larger selection passes fewer sites. *)
Lemma passes_AND_antitone st (sel1 sel2 : gset string) s :
  State.standardMode st = AND -> sel1 ⊆ sel2 ->
  passes (with_selectedStandards sel2 st) s = true ->
  passes (with_selectedStandards sel1 st) s = true.
Proof.
  intros Hm Hsub. rewrite !passes_with_selectedStandards, !criteria_ok_with, Hm.
  intros [Hrest Hd]%andb_true_iff. apply andb_true_iff in Hrest as [Hrest Hc].
  rewrite Hrest, Hd, andb_true_r. cbn [andb].
  destruct (bool_decide (0 < size sel1)%nat) eqn:H1; [|done]. cbn [negb orb].
  apply size_pos_nonempty in H1.
  assert (H2 : bool_decide (0 < size sel2)%nat = true).
  { apply size_pos_nonempty. intros ->. apply H1. set_solver. }
  rewrite H2 in Hc. cbn [negb orb] in Hc.
  rewrite forallb_forall in Hc. apply forallb_forall.
  intros c Hin%list_elem_of_In%elem_of_elements.
  apply Hc, list_elem_of_In, elem_of_elements. by apply Hsub.
Qed.

(** In mode OR a larger selection passes more sites, once something is
    selected. *)
Lemma passes_OR_monotone st (sel1 sel2 : gset string) s :
  State.standardMode st = OR -> sel1 ≠ ∅ -> sel1 ⊆ sel2 ->
  passes (with_selectedStandards sel1 st) s = true ->
  passes (with_selectedStandards sel2 st) s = true.
Proof.
  intros Hm Hne Hsub. rewrite !passes_with_selectedStandards, !criteria_ok_with, Hm.
  intros [Hrest Hd]%andb_true_iff. apply andb_true_iff in Hrest as [Hrest Hc].
  rewrite Hrest, Hd, andb_true_r. cbn [andb].
  rewrite (proj2 (size_pos_nonempty sel1) Hne) in Hc. cbn [negb orb] in Hc.
  apply orb_true_iff. right.
  apply existsb_exists in Hc as (c & Hin & Hc).
  apply existsb_exists. exists c. split; [done|].
  apply bool_decide_eq_true. apply bool_decide_eq_true in Hc. by apply Hsub.
Qed.

End CriteriaBoxes.

(** X9.  Checking one more criterion narrows the result in mode AND and,
    when a criterion was already selected, widens it in mode OR;
    unchecking one widens the result in mode AND. *)
Theorem criterion_boxes_move_result (sites : list Site) (st : State.t)
    (code : string) :
  (State.standardMode st = AND ->
   getFilteredSites sites (on_criterion_change true code st)
     `sublist_of` getFilteredSites sites st
   ∧ getFilteredSites sites st
       `sublist_of` getFilteredSites sites (on_criterion_change false code st))
  ∧ (State.standardMode st = OR -> State.selectedStandards st ≠ ∅ ->
     getFilteredSites sites st
       `sublist_of` getFilteredSites sites (on_criterion_change true code st)).
Proof.
  assert (Hst : with_selectedStandards (State.selectedStandards st) st = st)
    by by destruct st.
  split.
  - intros Hm. split; apply filter_mono; intros s.
    + rewrite <- Hst at 2. apply passes_AND_antitone; [done|]. set_solver.
    + rewrite <- Hst at 1. apply passes_AND_antitone; [done|].
      apply subseteq_difference_l. done.
  - intros Hm Hne. apply filter_mono. intros s.
    rewrite <- Hst at 1. apply passes_OR_monotone; [done|done|]. set_solver.
Qed.

Lemma criterion_boxes_move_result_witness :
  getFilteredSites [Sample.site ["i"]; Sample.site ["ii"]]
    (Sample.state {["i"]} None)
    `sublist_of`
  getFilteredSites [Sample.site ["i"]; Sample.site ["ii"]]
    (on_criterion_change true "ii" (Sample.state {["i"]} None)).
Proof.
  apply (proj2 (criterion_boxes_move_result
                  [Sample.site ["i"]; Sample.site ["ii"]]
                  (Sample.state {["i"]} None) "ii")).
  - reflexivity.
  - apply (non_empty_inhabited_L "i"). simpl.
    by apply elem_of_singleton.
Defined.

(** ** Drill selection: clicks, narrowing, highlighting *)

Section Drill.

Lemma passes_with_selection st sel s :
  passes (State.with_sunburstSelection sel st) s
  = negb (State.year st <? year s)%Z
    && negb (State.dangerOnly st && negb (danger s))
    && search_ok st s && criteria_ok st s && drill_ok sel s.
Proof. by rewrite passes_parts. Qed.

Lemma filter_none {A} (f : A -> bool) (l : list A) :
  (forall x, x ∈ l -> f x = false) -> List.filter f l = [].
Proof.
  induction l as [|x l IH]; intros Hf; simpl; [done|].
  rewrite (Hf x) by left. apply IH. intros y Hy. apply Hf. by right.
Qed.

Lemma handleSunburstClick_selection path st :
  State.sunburstSelection (handleSunburstClick path st)
  = if bool_decide (State.sunburstSelection st = Some (selection_of path))
    then None else Some (selection_of path).
Proof.
  unfold handleSunburstClick.
  cbn [State.sunburstSelection State.with_sunburstSelection].
  fold (selection_of path).
  destruct (State.sunburstSelection st) as [[r c k]|].
  - cbn [sel_region sel_country sel_category].
    destruct (selection_of path) as [r' c' k'] eqn:Hsel.
    cbn [sel_region sel_country sel_category].
    repeat case_bool_decide; simplify_eq; done.
  - by rewrite bool_decide_eq_false_2.
Qed.

(** A selection with fewer fields set asks less of a site. *)
Lemma drill_ok_prefix p q s :
  p `prefix_of` q ->
  drill_ok (Some (selection_of q)) s = true ->
  drill_ok (Some (selection_of p)) s = true.
Proof.
  intros [t ->]. unfold drill_ok, selection_of.
  cbn [sel_region sel_country sel_category].
  destruct p as [|a [|b [|c p]]]; cbn [lookup list_lookup app truthy negb orb andb];
    try done.
  - intros [[Hr _]%andb_true_iff _]%andb_true_iff.
    destruct t; cbn in *; by rewrite ?Hr.
  - intros [[Hr Hc]%andb_true_iff _]%andb_true_iff.
    cbn in *. by rewrite Hr, Hc.
Qed.

End Drill.

(** X10.  Drilling narrows step by step: the result under the selection
    of a path is a sublist of the result under the selection of any
    prefix of that path, and of the result with the selection cleared by
    the breadcrumb; a selected region that no site has leaves nothing. *)
Theorem drill_narrows (sites : list Site) (st : State.t) (p q : list string) :
  p `prefix_of` q ->
  getFilteredSites sites (State.with_sunburstSelection (Some (selection_of q)) st)
    `sublist_of`
  getFilteredSites sites (State.with_sunburstSelection (Some (selection_of p)) st)
  ∧ getFilteredSites sites
      (State.with_sunburstSelection (Some (selection_of p)) st)
      `sublist_of`
    getFilteredSites sites
      (on_breadcrumb_click
         (State.with_sunburstSelection (Some (selection_of p)) st))
  ∧ (forall r, p !! 0%nat = Some r -> r ≠ "" ->
       (forall s, s ∈ sites -> region s ≠ r) ->
       getFilteredSites sites
         (State.with_sunburstSelection (Some (selection_of p)) st) = []).
Proof.
  intros Hpq. split; [|split].
  - apply filter_mono. intros s. rewrite !passes_with_selection.
    intros [Hrest Hd]%andb_true_iff. rewrite Hrest. cbn [andb].
    by eapply drill_ok_prefix.
  - apply filter_mono. intros s.
    change (on_breadcrumb_click (State.with_sunburstSelection ?x st))
      with (State.with_sunburstSelection None st).
    rewrite !passes_with_selection.
    intros [Hrest _]%andb_true_iff. by rewrite Hrest.
  - intros r Hr Hne Hnone. unfold getFilteredSites.
    apply filter_none. intros s Hs.
    rewrite passes_with_selection. apply andb_false_iff. right.
    unfold drill_ok, selection_of. cbn [sel_region sel_country sel_category].
    rewrite Hr. destruct r as [|c0 r0]; [done|]. cbn [truthy negb orb].
    rewrite bool_decide_eq_false_2; [done|].
    intros [= Heq]. by apply (Hnone s Hs).
Qed.

Lemma drill_narrows_witness :
  getFilteredSites Sample.scenario
    (State.with_sunburstSelection (Some (selection_of ["Europe"; "B"]))
       (Sample.state ∅ None))
    `sublist_of`
  getFilteredSites Sample.scenario
    (State.with_sunburstSelection (Some (selection_of ["Europe"]))
       (Sample.state ∅ None)).
Proof.
  apply (drill_narrows Sample.scenario (Sample.state ∅ None)
           ["Europe"] ["Europe"; "B"]).
  by exists ["B"].
Defined.

(** X11.  A click on a node selects its path, unless that path is the
    current selection, in which case the click clears the selection; so
    a second click on the node just selected clears it.  The click
    leaves the rest of the state alone. *)
Theorem sunburst_click_toggles (path : list string) (st : State.t) :
  (State.sunburstSelection st ≠ Some (selection_of path) ->
   State.sunburstSelection (handleSunburstClick path st)
   = Some (selection_of path)
   ∧ State.sunburstSelection
       (handleSunburstClick path (handleSunburstClick path st)) = None)
  ∧ (State.sunburstSelection st = Some (selection_of path) ->
     State.sunburstSelection (handleSunburstClick path st) = None)
  ∧ handleSunburstClick path st
    = State.with_sunburstSelection
        (State.sunburstSelection (handleSunburstClick path st)) st.
Proof.
  split; [|split].
  - intros Hne. rewrite !handleSunburstClick_selection.
    rewrite (bool_decide_eq_false_2 _ Hne).
    by rewrite bool_decide_eq_true_2.
  - intros Heq. rewrite handleSunburstClick_selection.
    by rewrite bool_decide_eq_true_2.
  - reflexivity.
Qed.

Lemma sunburst_click_toggles_witness :
  State.sunburstSelection
    (handleSunburstClick ["Europe"; "A"]
       (handleSunburstClick ["Europe"; "A"] (Sample.state ∅ None)))
  = None.
Proof.
  apply (proj1 (sunburst_click_toggles ["Europe"; "A"] (Sample.state ∅ None))).
  discriminate.
Defined.

(** X12.  After a click has selected a path of non-empty names, the
    nodes marked as selected are exactly the clicked node and the nodes
    below it: a node is marked iff the clicked path is a prefix of its
    path. *)
Theorem selected_nodes_are_subtree (p q : list string) (st : State.t) :
  p ≠ [] -> (length p <= 3)%nat -> Forall (fun n => n ≠ "") p ->
  State.sunburstSelection st = Some (selection_of p) ->
  matchesSunburstSelection q st = true <-> p `prefix_of` q.
Proof.
  intros Hne Hlen Hnames Hsel. unfold matchesSunburstSelection.
  rewrite Hsel. unfold selection_of. cbn [sel_region sel_country sel_category].
  destruct p as [|a [|b [|c [|d p]]]]; [done| | | |simpl in Hlen; lia];
    repeat match goal with
           | H : Forall _ (_ :: _) |- _ => apply Forall_cons in H as [? H]
           end;
    cbn [lookup list_lookup].
  - destruct a as [|a0 a]; [done|]. cbn [truthy].
    rewrite bool_decide_eq_true. split.
    + destruct q as [|x q]; [done|]. intros [= ->]. by exists q.
    + by intros [t ->].
  - destruct a as [|a0 a]; [done|]. destruct b as [|b0 b]; [done|].
    cbn [truthy]. rewrite andb_true_iff, !bool_decide_eq_true. split.
    + destruct q as [|x [|y q]]; [by intros [? ?]|by intros [? ?]|].
      intros [[= ->] [= ->]]. by exists q.
    + by intros [t ->].
  - destruct a as [|a0 a]; [done|]. destruct b as [|b0 b]; [done|].
    destruct c as [|c0 c]; [done|].
    cbn [truthy]. rewrite !andb_true_iff, !bool_decide_eq_true. split.
    + destruct q as [|x [|y [|z q]]];
        [by intros [[? ?] ?]|by intros [[? ?] ?]|by intros [[? ?] ?]|].
      intros [[[= ->] [= ->]] [= ->]]. by exists q.
    + by intros [t ->].
Qed.

Lemma selected_nodes_are_subtree_witness :
  matchesSunburstSelection ["Europe"; "A"; "Cultural"]
    (handleSunburstClick ["Europe"; "A"] (Sample.state ∅ None)) = true.
Proof.
  apply (selected_nodes_are_subtree ["Europe"; "A"] ["Europe"; "A"; "Cultural"]
           (handleSunburstClick ["Europe"; "A"] (Sample.state ∅ None))).
  - discriminate.
  - simpl. lia.
  - repeat constructor; discriminate.
  - reflexivity.
  - by exists ["Cultural"].
Defined.

(** ** Playback: the timers and the cycle of the cursor *)

Section SchedulerInvariant.

Variable yearExtent : Z * Z.

Lemma sch_inv_initial : sch_inv (sch_initial yearExtent).
Proof. split; [by intros id ?%not_elem_of_empty|done]. Qed.

Lemma sch_inv_togglePlay s : sch_inv s -> sch_inv (sch_togglePlay s).
Proof.
  intros [Hfresh Hplay]. unfold sch_togglePlay.
  destruct (State.playing (sch_state s)) eqn:Hp; cbn [negb State.with_playing State.playing].
  - destruct Hplay as (id & Hid & Hact). split; cbn [sch_active sch_next sch_state State.playing].
    + rewrite Hid, Hact, difference_diag_L.
      by intros id' Hin%not_elem_of_empty.
    + rewrite Hid, Hact. apply difference_diag_L.
  - split; cbn [sch_active sch_next sch_state sch_playTimer State.playing].
    + rewrite Hplay. intros id Hin.
      rewrite (right_id_L ∅ (∪)) in Hin.
      apply elem_of_singleton in Hin. lia.
    + exists (sch_next s). split; [done|]. rewrite Hplay.
      apply (right_id_L ∅ (∪)).
Qed.

Lemma sch_inv_due id s : sch_inv s -> sch_inv (sch_due yearExtent id s).
Proof.
  intros [Hfresh Hplay]. unfold sch_due. case_bool_decide; [|done].
  split; [done|]. cbn [sch_state sch_active sch_playTimer].
  unfold tick. by destruct (_ >=? _)%Z.
Qed.

Lemma sch_run_snoc events ev s :
  sch_run yearExtent (events ++ [ev]) s
  = sch_step yearExtent (sch_run yearExtent events s) ev.
Proof. unfold sch_run. by rewrite foldl_app. Qed.

Lemma sch_inv_run events : sch_inv (sch_run yearExtent events (sch_initial yearExtent)).
Proof.
  induction events as [|ev events IH] using rev_ind; [apply sch_inv_initial|].
  rewrite sch_run_snoc. destruct ev; [by apply sch_inv_togglePlay|by apply sch_inv_due].
Qed.

Lemma sch_run_in_extent events :
  yearExtent.1 <= yearExtent.2 ->
  in_extent yearExtent (sch_state (sch_run yearExtent events (sch_initial yearExtent))).
Proof.
  intros Hext.
  induction events as [|ev events IH] using rev_ind.
  - unfold in_extent. simpl. lia.
  - rewrite sch_run_snoc. destruct ev as [|id]; cbn [sch_step].
    + unfold sch_togglePlay.
      by destruct (State.playing (State.with_playing _ _)).
    + unfold sch_due. case_bool_decide; [|done].
      cbn [sch_state]. by apply tick_in_extent.
Qed.

End SchedulerInvariant.

(** X13.  Whatever clicks on the play button and due intervals follow
    [init], at most one interval is set, one is set exactly while the
    state says playing, and the cursor year stays inside the extent;
    while stopped, a due interval changes nothing. *)
Theorem scheduler_single_timer (yearExtent : Z * Z)
    (events : list SchedulerEvent) (id : nat) :
  yearExtent.1 <= yearExtent.2 ->
  (size (sch_active (sch_run yearExtent events (sch_initial yearExtent))) <= 1)%nat
  ∧ (sch_active (sch_run yearExtent events (sch_initial yearExtent)) ≠ ∅
     <-> State.playing
           (sch_state (sch_run yearExtent events (sch_initial yearExtent)))
         = true)
  ∧ in_extent yearExtent
      (sch_state (sch_run yearExtent events (sch_initial yearExtent)))
  ∧ (State.playing
       (sch_state (sch_run yearExtent events (sch_initial yearExtent)))
     = false ->
     sch_due yearExtent id (sch_run yearExtent events (sch_initial yearExtent))
     = sch_run yearExtent events (sch_initial yearExtent)).
Proof.
  intros Hext.
  pose proof (sch_inv_run yearExtent events) as [_ Hplay].
  pose proof (sch_run_in_extent yearExtent events Hext) as Hin.
  set (s := sch_run yearExtent events (sch_initial yearExtent)) in *.
  destruct (State.playing (sch_state s)) eqn:Hp.
  - destruct Hplay as (t & _ & Hact). rewrite Hact.
    split; [by rewrite size_singleton|]. split; [|by split].
    split; [done|]. intros _ Hempty.
    assert (Ht : t ∈ ({[t]} : gset nat)) by by apply elem_of_singleton.
    rewrite Hempty in Ht. by apply not_elem_of_empty in Ht.
  - rewrite Hplay. split; [rewrite size_empty; lia|]. split; [by split|].
    split; [done|]. intros _. unfold sch_due. rewrite Hplay.
    by rewrite bool_decide_eq_false_2 by apply not_elem_of_empty.
Qed.

Lemma scheduler_single_timer_witness :
  (size (sch_active
           (sch_run (1978, 2024)%Z
              [PlayClick; IntervalDue 0; PlayClick; PlayClick]
              (sch_initial (1978, 2024)%Z))) <= 1)%nat.
Proof.
  apply (scheduler_single_timer (1978, 2024)
           [PlayClick; IntervalDue 0; PlayClick; PlayClick] 0).
  simpl. lia.
Defined.

Section Cycle.

Variable yearExtent : Z * Z.

Lemma tick_only_year st :
  tick yearExtent st = State.with_year (State.year (tick yearExtent st)) st.
Proof. unfold tick. by destruct (_ >=? _)%Z. Qed.

(** The cursor year after [n] ticks. *)
Lemma iter_tick_year (n : nat) st :
  in_extent yearExtent st ->
  State.year (Nat.iter n (tick yearExtent) st)
  = yearExtent.1
    + (State.year st - yearExtent.1 + Z.of_nat n)
        mod (yearExtent.2 - yearExtent.1 + 1).
Proof.
  unfold in_extent. intros Hin. induction n as [|n IH].
  - change (Nat.iter 0 (tick yearExtent) st) with st.
    change (Z.of_nat 0) with 0.
    rewrite Z.add_0_r, Z.mod_small by lia. lia.
  - rewrite Nat.iter_succ, tick_year, IH.
    set (N := yearExtent.2 - yearExtent.1 + 1) in *.
    set (d := State.year st - yearExtent.1) in *.
    replace (d + Z.of_nat (S n)) with ((d + Z.of_nat n) + 1) by lia.
    rewrite <- (Zplus_mod_idemp_l (d + Z.of_nat n) 1 N).
    pose proof (Z.mod_pos_bound (d + Z.of_nat n) N ltac:(lia)) as Hm.
    set (m := (d + Z.of_nat n) mod N) in *.
    destruct (Z.geb_spec (yearExtent.1 + m) yearExtent.2) as [Hge|Hlt].
    + replace (m + 1) with N by lia. rewrite Z_mod_same_full. lia.
    + rewrite Z.mod_small; lia.
Qed.

End Cycle.

(** X14.  Playback runs through the extent in a cycle: from a cursor
    year inside the extent, [yearMax - yearMin + 1] ticks bring the
    cursor back to where it was, and a tick changes nothing but the
    cursor year. *)
Theorem playback_cycle (yearExtent : Z * Z) (st : State.t) :
  in_extent yearExtent st ->
  Nat.iter (Z.to_nat (yearExtent.2 - yearExtent.1 + 1)) (tick yearExtent) st
  = st.
Proof.
  intros Hin.
  assert (Hshape : forall n,
             Nat.iter n (tick yearExtent) st
             = State.with_year (State.year (Nat.iter n (tick yearExtent) st)) st).
  { induction n as [|n IH]; [by destruct st|].
    rewrite Nat.iter_succ, tick_only_year. rewrite IH at 2. reflexivity. }
  rewrite Hshape, iter_tick_year by done.
  unfold in_extent in Hin. rewrite Z2Nat.id by lia.
  replace (State.year st - yearExtent.1 + (yearExtent.2 - yearExtent.1 + 1))
    with (State.year st - yearExtent.1 + 1 * (yearExtent.2 - yearExtent.1 + 1))
    by lia.
  rewrite Z_mod_plus_full, Z.mod_small by lia.
  replace (yearExtent.1 + (State.year st - yearExtent.1)) with (State.year st)
    by lia.
  by destruct st.
Qed.

Lemma playback_cycle_witness :
  Nat.iter (Z.to_nat (1999 - 1995 + 1)) (tick (1995, 1999))
    (State.with_year 1997 (Sample.state ∅ None))
  = State.with_year 1997 (Sample.state ∅ None).
Proof.
  apply (playback_cycle (1995, 1999) (State.with_year 1997 (Sample.state ∅ None))).
  unfold in_extent. simpl. lia.
Defined.

(** ** Stacked series: what the records count *)

Section StackCounts.

Variables (mode : ViewMode) (keys : list string) (yearRange : list Z).
Hypothesis year_not_key : "year" ∉ keys.
Hypothesis yearRange_NoDup : NoDup yearRange.

Local Abbreviation blank := (map (blank_record keys) yearRange).

Lemma blank_year i y :
  yearRange !! i = Some y ->
  exists r, blank !! i = Some r ∧ r !! "year" = Some (VNum y).
Proof.
  intros Hi. exists (blank_record keys y). split.
  - change (map ?f ?l) with (f <$> l).
    by rewrite list_lookup_fmap, Hi.
  - rewrite blank_record_other by done. apply lookup_singleton_eq.
Qed.

Lemma blank_lookup i r :
  blank !! i = Some r ->
  exists y, yearRange !! i = Some y ∧ r = blank_record keys y.
Proof.
  change (map ?f ?l) with (f <$> l).
  rewrite list_lookup_fmap. destruct (yearRange !! i) as [y|]; [|done].
  intros [= <-]. by exists y.
Qed.

Lemma blank_keys_NoDup : NoDup ((fun r : gmap string value => r !! "year") <$> blank).
Proof.
  apply NoDup_alt. intros i j k Hi Hj.
  apply list_lookup_fmap_Some in Hi as (ri & -> & Hri).
  apply list_lookup_fmap_Some in Hj as (rj & Hk & Hrj).
  apply blank_lookup in Hri as (yi & Hyi & ->).
  apply blank_lookup in Hrj as (yj & Hyj & ->).
  rewrite !blank_record_other in Hk by done.
  rewrite !lookup_singleton_eq in Hk. injection Hk as <-.
  by eapply NoDup_lookup.
Qed.

(** The year map finds the position of a year of the range, and nothing
    for another year. *)
Lemma year_map_Some y i :
  year_map blank !! Some (VNum y) = Some i -> yearRange !! i = Some y.
Proof.
  intros (r & Hr & Hkey)%index_by_Some.
  apply blank_lookup in Hr as (y' & Hy' & ->).
  rewrite blank_record_other, lookup_singleton_eq in Hkey by done.
  by injection Hkey as ->.
Qed.

Lemma year_map_None y :
  year_map blank !! Some (VNum y) = None -> y ∉ yearRange.
Proof.
  intros Hnone Hy. apply list_elem_of_lookup in Hy as [i Hi].
  destruct (blank_year i y Hi) as (r & Hr & Hkey).
  eapply (index_by_None _ _ _ Hnone r); [|exact Hkey].
  by eapply list_elem_of_lookup_2.
Qed.

Lemma site_count_cons y k s data :
  site_count mode y k (s :: data)
  = site_count mode y k [s] + site_count mode y k data.
Proof.
  unfold site_count. cbn [List.filter].
  destruct ((year s =? y)%Z && bool_decide (groupingKey mode s = k));
    simpl length; lia.
Qed.

Lemma site_count_other_year y k s :
  year s ≠ y -> site_count mode y k [s] = 0.
Proof.
  intros Hne. unfold site_count. cbn [List.filter].
  by destruct (Z.eqb_spec (year s) y).
Qed.

Lemma site_count_other_key y k s :
  groupingKey mode s ≠ k -> site_count mode y k [s] = 0.
Proof.
  intros Hne. unfold site_count. cbn [List.filter].
  rewrite (bool_decide_eq_false_2 _ Hne). by rewrite andb_false_r.
Qed.

Lemma site_count_same s :
  site_count mode (year s) (groupingKey mode s) [s] = 1.
Proof.
  unfold site_count. cbn [List.filter].
  by rewrite Z.eqb_refl, bool_decide_eq_true_2.
Qed.

Lemma counted_ext c1 c2 records :
  (forall y k, c1 y k = c2 y k) ->
  counted keys yearRange c1 records -> counted keys yearRange c2 records.
Proof.
  intros Hc [Hlen Hrec]. split; [done|]. intros i y r Hy Hr.
  destruct (Hrec i y r Hy Hr) as [Hyear Hk]. split; [done|].
  intros k Hin. rewrite <- Hc. by apply Hk.
Qed.

(** Counting one site adds it to the count of its year and key. *)
Lemma count_site_counted count records site :
  groupingKey mode site ∈ keys ->
  counted keys yearRange count records ->
  counted keys yearRange
    (fun y k => count y k + site_count mode y k [site])
    (count_site mode (year_map blank) records site).
Proof.
  intros Hgk [Hlen Hrec]. unfold count_site.
  destruct (year_map blank !! Some (VNum (year site))) as [i0|] eqn:Hmap.
  - apply year_map_Some in Hmap. split; [by rewrite length_alter|].
    intros i y r Hy Hr. destruct (decide (i = i0)) as [->|Hne].
    + rewrite Hmap in Hy. injection Hy as <-.
      rewrite list_lookup_alter_eq in Hr.
      destruct (records !! i0) as [r0|] eqn:Hr0; [|done].
      injection Hr as <-. destruct (Hrec i0 _ r0 Hmap Hr0) as [Hyear Hk].
      split.
      * rewrite lookup_insert_ne; [done|].
        intros Heq. apply year_not_key. by rewrite <- Heq.
      * intros k Hin. destruct (decide (groupingKey mode site = k)) as [<-|Hk'].
        -- rewrite lookup_insert_eq, (Hk _ Hin), site_count_same. done.
        -- rewrite lookup_insert_ne, site_count_other_key, Z.add_0_r by done.
           by apply Hk.
    + rewrite list_lookup_alter_ne in Hr by done.
      destruct (Hrec i y r Hy Hr) as [Hyear Hk]. split; [done|].
      intros k Hin. rewrite site_count_other_year, Z.add_0_r; [by apply Hk|].
      intros Heq. apply Hne. rewrite <- Heq in Hy.
      by eapply NoDup_lookup.
  - apply year_map_None in Hmap. split; [done|].
    intros i y r Hy Hr. destruct (Hrec i y r Hy Hr) as [Hyear Hk].
    split; [done|]. intros k Hin.
    rewrite site_count_other_year, Z.add_0_r; [by apply Hk|].
    intros Heq. apply Hmap. rewrite Heq. by eapply list_elem_of_lookup_2.
Qed.

Lemma foldl_count_site_counted data : forall count records,
  (forall s, s ∈ data -> groupingKey mode s ∈ keys) ->
  counted keys yearRange count records ->
  counted keys yearRange
    (fun y k => count y k + site_count mode y k data)
    (foldl (count_site mode (year_map blank)) records data).
Proof.
  induction data as [|s data IH]; intros count records Hkeys Hc.
  - cbn [foldl]. eapply counted_ext; [|exact Hc].
    intros y k. unfold site_count. simpl. lia.
  - cbn [foldl]. eapply counted_ext;
      [|apply IH; [|apply count_site_counted; [|exact Hc]]].
    + intros y k. cbn beta. rewrite (site_count_cons y k s data). lia.
    + intros s' Hs'. apply Hkeys. by right.
    + apply Hkeys. left.
Qed.

Lemma blank_counted : counted keys yearRange (fun _ _ => 0) blank.
Proof.
  split; [by rewrite length_map|].
  intros i y r Hy Hr. apply blank_lookup in Hr as (y' & Hy' & ->).
  rewrite Hy in Hy'. injection Hy' as <-. split.
  - rewrite blank_record_other by done. apply lookup_singleton_eq.
  - intros k Hk. by apply blank_record_key.
Qed.

(** The sum over the keys of a record that holds a number under each. *)
Lemma sum_keys_zsum (c : string -> Z) (r : gmap string value) ks : forall a,
  (forall k, k ∈ ks -> r !! k = Some (VNum (c k))) ->
  foldl (fun sum key => plus sum (num_of (r !! key))) (VNum a) ks
  = VNum (a + zsum c ks).
Proof.
  induction ks as [|k ks IH]; intros a Hr; cbn [foldl zsum foldr].
  - by rewrite Z.add_0_r.
  - rewrite (Hr k) by left.
    change (plus (VNum a) (num_of (Some (VNum (c k))))) with (VNum (a + c k)).
    rewrite IH by (intros k' Hk'; apply Hr; by right).
    f_equal. unfold zsum. lia.
Qed.

Lemma zsum_plus f g ks : zsum (fun k => f k + g k) ks = zsum f ks + zsum g ks.
Proof. induction ks as [|k ks IH]; simpl; [done|]. rewrite IH. lia. Qed.

Lemma zsum_ext f g ks : (forall k, f k = g k) -> zsum f ks = zsum g ks.
Proof.
  intros Hfg. induction ks as [|k ks IH]; simpl; [done|]. by rewrite Hfg, IH.
Qed.

Lemma zsum_zero f ks : (forall k, k ∈ ks -> f k = 0) -> zsum f ks = 0.
Proof.
  induction ks as [|k ks IH]; intros Hf; simpl; [done|].
  rewrite (Hf k) by left. rewrite IH; [done|]. intros k' Hk'. apply Hf. by right.
Qed.

(** Among distinct keys exactly one is the key of a site. *)
Lemma zsum_one_site y s ks :
  NoDup ks -> groupingKey mode s ∈ ks ->
  zsum (fun k => site_count mode y k [s]) ks
  = if (year s =? y)%Z then 1 else 0.
Proof.
  intros Hnd Hin. destruct (Z.eqb_spec (year s) y) as [<-|Hne].
  - induction Hnd as [|k ks Hk Hnd IH]; [by apply elem_of_nil in Hin|].
    cbn [zsum foldr]. fold (zsum (fun k => site_count mode (year s) k [s]) ks).
    destruct (decide (groupingKey mode s = k)) as [<-|Hgk].
    + rewrite site_count_same, zsum_zero; [done|].
      intros k' Hk'. apply site_count_other_key. by intros <-.
    + rewrite site_count_other_key by done. apply IH.
      apply elem_of_cons in Hin as [?|?]; done.
  - apply zsum_zero. intros k _. by apply site_count_other_year.
Qed.

Lemma zsum_site_count y data ks :
  NoDup ks -> (forall s, s ∈ data -> groupingKey mode s ∈ ks) ->
  zsum (fun k => site_count mode y k data) ks
  = Z.of_nat (length (List.filter (fun s => (year s =? y)%Z) data)).
Proof.
  intros Hnd. induction data as [|s data IH]; intros Hkeys.
  - apply zsum_zero. by intros k _.
  - rewrite (zsum_ext _ _ ks (fun k => site_count_cons y k s data)).
    rewrite zsum_plus, zsum_one_site, IH.
    + cbn [List.filter]. destruct (year s =? y)%Z; simpl length; lia.
    + intros s' Hs'. apply Hkeys. by right.
    + done.
    + apply Hkeys. left.
Qed.

End StackCounts.



(** ** Danger-event series: which events matter *)

Section CountedEvents.

Lemma event_count_counted cursor ty y data :
  ty = "Y" ∨ ty = "R" -> y <= cursor ->
  event_count ty y (all_events (map (counted_events cursor) data))
  = event_count ty y (all_events data).
Proof.
  intros Hty Hy. unfold event_count. f_equal. f_equal.
  induction data as [|site data IH]; [done|].
  cbn [map all_events flat_map]. rewrite !List.filter_app. f_equal; [|apply IH].
  cbn [counted_events dangerEvents].
  induction (dangerEvents site) as [|e evs IHe]; [done|].
  cbn [List.filter].
  destruct (bool_decide_reflect (ev_type e = ty)) as [Het|Het];
    destruct (Z.eqb_spec (ev_year e) y) as [Hey|Hey]; cbn [andb].
  - replace ((bool_decide (ev_type e = "Y") || bool_decide (ev_type e = "R"))
             && (ev_year e <=? cursor)%Z) with true.
    + cbn [List.filter]. rewrite (bool_decide_eq_true_2 _ Het).
      destruct (Z.eqb_spec (ev_year e) y); [|done]. cbn [andb]. by rewrite IHe.
    + symmetry. apply andb_true_iff. split; [|apply Z.leb_le; lia].
      apply orb_true_iff.
      rewrite Het.
      destruct Hty as [Hty|Hty]; [left|right]; by apply bool_decide_eq_true_2.
  - destruct (_ && (ev_year e <=? cursor)%Z); [|done].
    cbn [List.filter]. destruct (Z.eqb_spec (ev_year e) y); [done|].
    by rewrite andb_false_r.
  - destruct (_ && (ev_year e <=? cursor)%Z); [|done].
    cbn [List.filter]. by rewrite (bool_decide_eq_false_2 _ Het).
  - destruct (_ && (ev_year e <=? cursor)%Z); [|done].
    cbn [List.filter]. by rewrite (bool_decide_eq_false_2 _ Het).
Qed.

End CountedEvents.

(** X16.  Only the danger events of type Y or R dated up to the cursor
    year reach the series: events of another type and events behind the
    cursor change nothing. *)
Theorem danger_series_counts_Y_and_R (yearExtent : Z * Z) (cursor : Z)
    (data : list Site) :
  buildDangerSeries yearExtent cursor data
  = buildDangerSeries yearExtent cursor (map (counted_events cursor) data).
Proof.
  rewrite !buildDangerSeries_closed.
  f_equal; apply series_of_ext; intros y _ Hy;
    symmetry; apply event_count_counted; auto.
Qed.

(** ** Hierarchy: one node per region, in order of appearance *)

Section GroupKeys.

Context {A : Type}.

Lemma group_push_keys k (v : A) groups :
  (map fst (group_push k v groups))
  = if bool_decide (k ∈ map fst groups) then map fst groups
    else (map fst groups ++ [k])%list.
Proof.
  induction groups as [|[k' vs] rest IH]; cbn [group_push map fst].
  - by rewrite bool_decide_eq_false_2 by apply not_elem_of_nil.
  - destruct (decide (k = k')) as [->|Hne]; cbn [map fst].
    + by rewrite bool_decide_eq_true_2 by left.
    + rewrite IH. case_bool_decide as Hin.
      * by rewrite bool_decide_eq_true_2 by by right.
      * rewrite bool_decide_eq_false_2; [done|].
        intros [?|?]%elem_of_cons; done.
Qed.

(** The keys of [d3.group] are the distinct keys of the values, in the
    order of their first occurrence. *)
Lemma d3_group_keys (keyof : A -> string) values :
  map fst (d3_group keyof values) = unique (map keyof values).
Proof.
  induction values as [|v values IH] using rev_ind; [done|].
  rewrite d3_group_snoc, group_push_keys, IH, map_app.
  change (map keyof [v]) with [keyof v]. by rewrite unique_snoc.
Qed.

End GroupKeys.

(** X17.  The root of the hierarchy is named World and has one child per
    region that has a (site, country) pair, in the order in which the
    regions first appear; no two children share a name, and without
    data there is no child. *)
Theorem hierarchy_regions (data : list Site) :
  node_name (buildHierarchy data) = "World"
  ∧ map node_name (children_of (buildHierarchy data))
    = unique (map (fun sc => region sc.1) (flat_map site_countries data))
  ∧ NoDup (map node_name (children_of (buildHierarchy data)))
  ∧ (data = [] -> children_of (buildHierarchy data) = []).
Proof.
  assert (Hnames : map node_name (children_of (buildHierarchy data))
                   = unique (map (fun sc => region sc.1)
                               (flat_map site_countries data))).
  { rewrite buildHierarchy_levels. cbn [children_of].
    rewrite map_map, <- d3_group_keys. apply map_ext. by intros [r g]. }
  split; [done|]. split; [exact Hnames|]. split.
  - rewrite Hnames. apply unique_NoDup.
  - by intros ->.
Qed.

Lemma hierarchy_regions_witness : children_of (buildHierarchy []) = [].
Proof. by apply (proj2 (proj2 (proj2 (hierarchy_regions [])))). Defined.

(** ** Search box: trimming and case *)

Section SearchText.


Lemma lower_char_idem c : Text.lower_char (Text.lower_char c) = Text.lower_char c.
Proof. by destruct c as [[] [] [] [] [] [] [] []]. Qed.

Lemma toLowerCase_idem s : Text.toLowerCase (Text.toLowerCase s) = Text.toLowerCase s.
Proof.
  induction s as [|c s IH]; [done|]. cbn [Text.toLowerCase].
  by rewrite lower_char_idem, IH.
Qed.





(** What [trim] keeps stands inside the text. *)
Lemma trim_start_inside s : exists a, s = a ++ trim_start s.
Proof.
  induction s as [|c s [a IH]]; [by exists ""|]. cbn [trim_start].
  destruct (Text.is_space c); [|by exists ""].
  exists (String c a). change (String c a ++ ?t) with (String c (a ++ t)).
  by rewrite <- IH.
Qed.

Lemma trim_end_inside s : exists b, s = trim_end s ++ b.
Proof.
  induction s as [|c s [b IH]]; [by exists ""|]. cbn [trim_end].
  destruct (trim_end s) as [|c' r].
  - destruct (Text.is_space c).
    + exists (String c s). done.
    + exists b. change (String c "" ++ b) with (String c ("" ++ b)).
      by rewrite <- IH.
  - exists b. change (String c (String c' r) ++ b)
      with (String c (String c' r ++ b)). by rewrite <- IH.
Qed.

Lemma append_assoc (a b c : string) : (a ++ b) ++ c = a ++ (b ++ c).
Proof.
  induction a as [|x a IH]; [done|].
  change ((String x a ++ b) ++ c) with (String x ((a ++ b) ++ c)).
  change (String x a ++ (b ++ c)) with (String x (a ++ (b ++ c))).
  by rewrite IH.
Qed.

Lemma trim_inside s : exists a b, s = a ++ trim s ++ b.
Proof.
  destruct (trim_start_inside s) as [a Ha].
  destruct (trim_end_inside (trim_start s)) as [b Hb].
  exists a, b. unfold trim. by rewrite <- Hb.
Qed.



End SearchText.



(** ** Summary line and search options *)

Section Summary.

Lemma elem_of_foldl_add (l : list string) : forall (S : gset string) x,
  x ∈ foldl (fun set c => {[c]} ∪ set) S l <-> x ∈ S ∨ x ∈ l.
Proof.
  induction l as [|c l IH]; intros S x; cbn [foldl].
  - split; [by left|]. intros [?|?%elem_of_nil]; done.
  - rewrite IH, elem_of_union, elem_of_singleton, elem_of_cons. tauto.
Qed.

Lemma elem_of_summary_countries (data : list Site) : forall (S : gset string) x,
  x ∈ foldl (fun set site => foldl (fun set c => {[c]} ∪ set) set (countries site))
        S data
  <-> x ∈ S ∨ x ∈ flat_map countries data.
Proof.
  induction data as [|s data IH]; intros S x; cbn [foldl flat_map].
  - split; [by left|]. intros [?|?%elem_of_nil]; done.
  - rewrite IH, elem_of_foldl_add, elem_of_app. tauto.
Qed.

Lemma filter_length_le {A} (f : A -> bool) (l : list A) :
  (length (List.filter f l) <= length l)%nat.
Proof.
  induction l as [|x l IH]; simpl; [done|]. destruct (f x); simpl; lia.
Qed.

Lemma passes_dangerOnly st s :
  State.dangerOnly st = true -> passes st s = true -> danger s = true.
Proof.
  intros Hd. rewrite passes_parts, Hd.
  destruct (danger s); [done|]. cbn [negb andb]. by rewrite andb_false_r.
Qed.

End Summary.

(** X19.  The summary shows the number of sites, the number of distinct
    countries the sites list, and the number of sites in danger, which
    never exceeds the number of sites; for the result of the filter with
    the danger-only box checked the two numbers are equal. *)
Theorem summary_numbers (sites : list Site) (st : State.t) :
  (updateSummary sites).1.1 = length sites
  ∧ (updateSummary sites).1.2 = length (unique (flat_map countries sites))
  ∧ ((updateSummary sites).2 <= length sites)%nat
  ∧ (State.dangerOnly st = true ->
     (updateSummary (getFilteredSites sites st)).2
     = (updateSummary (getFilteredSites sites st)).1.1).
Proof.
  unfold updateSummary. cbn [fst snd].
  split; [done|]. split; [|split; [apply filter_length_le|]].
  - rewrite <- (size_list_to_set (C := gset string)) by apply unique_NoDup.
    f_equal. apply set_eq. intros x.
    rewrite elem_of_summary_countries, elem_of_list_to_set, elem_of_unique.
    split; [intros [?%not_elem_of_empty|?]; done|by right].
  - intros Hd. f_equal. apply forallb_filter_id, forallb_forall.
    intros s [_ Hs]%filter_In. by eapply passes_dangerOnly.
Qed.

Lemma summary_numbers_witness :
  (updateSummary
     (getFilteredSites Sample.scenario
        (on_dangerOnly_change true (Sample.state ∅ None)))).2
  = (updateSummary
       (getFilteredSites Sample.scenario
          (on_dangerOnly_change true (Sample.state ∅ None)))).1.1.
Proof.
  apply (proj2 (proj2 (proj2
           (summary_numbers Sample.scenario
              (on_dangerOnly_change true (Sample.state ∅ None)))))).
  reflexivity.
Defined.

(** X20.  The search options hold every site name and every country of
    the sites, nothing else, and each once. *)
Theorem search_options_spec (sites : list Site) :
  NoDup (setupSearchOptions sites)
  ∧ (forall x,
        x ∈ setupSearchOptions sites
        <-> exists s, s ∈ sites ∧ (x = name s ∨ x ∈ countries s)).
Proof.
  unfold setupSearchOptions. split.
  - rewrite sort_strings_perm. apply unique_NoDup.
  - intros x. rewrite sort_strings_perm, elem_of_unique.
    rewrite list_elem_of_In, in_flat_map. split.
    + intros (s & Hs%list_elem_of_In & Hx). exists s. split; [done|].
      destruct Hx as [<-|Hx]; [by left|right; by apply list_elem_of_In].
    + intros (s & Hs & Hx). exists s. split; [by apply list_elem_of_In|].
      destruct Hx as [->|Hx]; [by left|right; by apply list_elem_of_In].
Qed.

(** X21.  Checking the danger-only box keeps exactly the sites in danger
    of the result without it, in the same order. *)
Theorem danger_only_keeps_danger (sites : list Site) (st : State.t) :
  getFilteredSites sites (on_dangerOnly_change true st)
  = List.filter danger (getFilteredSites sites (on_dangerOnly_change false st)).
Proof.
  unfold getFilteredSites, on_dangerOnly_change.
  induction sites as [|s sites IH]; [done|]. cbn [List.filter].
  assert (Hp : passes (with_dangerOnly true st) s
               = passes (with_dangerOnly false st) s && danger s).
  { rewrite !passes_parts.
    change (search_ok (with_dangerOnly ?b st) s) with (search_ok st s).
    change (criteria_ok (with_dangerOnly ?b st) s) with (criteria_ok st s).
    cbn [with_dangerOnly State.year State.dangerOnly State.sunburstSelection].
    destruct (danger s), (State.year st <? year s)%Z, (search_ok st s),
      (criteria_ok st s), (drill_ok (State.sunburstSelection st) s); done. }
  rewrite Hp. destruct (passes (with_dangerOnly false st) s); cbn [andb List.filter].
  - destruct (danger s); by rewrite IH.
  - exact IH.
Qed.

Section EndToEnd.

Lemma formatSite_category d s :
  formatSite d = Some s -> category s ∈ categoryDomain.
Proof.
  unfold formatSite. destruct (parseYear (date_text d)); [|done].
  destruct (_ =? 0)%Z; [done|]. intros [= <-]. cbn [category].
  change categoryDomain with (known_categories ++ ["Other"])%list.
  apply elem_of_app.
  destruct (raw_category d) as [c|]; [|right; left].
  case_bool_decide as Hc; [by left|right; left].
Qed.

Lemma filtered_init_category rawSites st s :
  s ∈ getFilteredSites (init_sites rawSites) st -> category s ∈ categoryDomain.
Proof.
  unfold getFilteredSites. intros [Hs _]%list_elem_of_In%filter_In.
  apply list_elem_of_In, init_sites_origin in Hs as (d & _ & Hf & _).
  by eapply formatSite_category.
Qed.

End EndToEnd.

(** X22.  From the raw records to the stacked series by category,
    whatever the records and the selection state: the record of every
    year of the extent holds that year, under each category the number
    of shown sites of that year and category, and as total the number of
    shown sites of that year. *)
Theorem stacked_by_category_end_to_end (rawSites : list RawSite)
    (st : State.t) (regionDomain : list string) (yearExtent : Z * Z)
    (i : nat) (y : Z) :
  d3_range yearExtent.1 (yearExtent.2 + 1) !! i = Some y ->
  exists record,
    (prepareStackData ByCategory regionDomain yearExtent
       (getFilteredSites (init_sites rawSites) st)).2 !! i = Some record
    ∧ record !! "year" = Some (VNum y)
    ∧ (forall k, k ∈ categoryDomain ->
         record !! k
         = Some (VNum (site_count ByCategory y k
                         (getFilteredSites (init_sites rawSites) st))))
    ∧ record !! "total"
      = Some (VNum (Z.of_nat
                      (length (List.filter (fun s => (year s =? y)%Z)
                                 (getFilteredSites (init_sites rawSites) st))))).
Proof.
  intros Hi. unfold prepareStackData. cbn [fst snd].
  set (data := getFilteredSites (init_sites rawSites) st).
  set (yearRange := d3_range yearExtent.1 (yearExtent.2 + 1)) in *.
  assert (Hyear : "year" ∉ categoryDomain)
    by (apply (bool_decide_unpack _); by vm_compute).
  assert (Htotal : "total" ∉ categoryDomain)
    by (apply (bool_decide_unpack _); by vm_compute).
  assert (Hnd : NoDup categoryDomain)
    by (apply (bool_decide_unpack _); by vm_compute).
  assert (Hkeys : forall s, s ∈ data -> groupingKey ByCategory s ∈ categoryDomain)
    by (intros s Hs; by eapply filtered_init_category).
  pose proof (foldl_count_site_counted ByCategory categoryDomain yearRange Hyear
                (d3_range_NoDup _ _) data (fun _ _ => 0) _ Hkeys
                (blank_counted categoryDomain yearRange Hyear)) as [Hlen Hrec].
  cbn beta in Hrec.
  destruct (lookup_lt_is_Some_2
              (foldl (count_site ByCategory
                        (year_map (map (blank_record categoryDomain) yearRange)))
                 (map (blank_record categoryDomain) yearRange) data) i) as [r Hr].
  { rewrite Hlen. by eapply lookup_lt_Some. }
  destruct (Hrec i y r Hi Hr) as [Hry Hrk].
  exists (<["total" := sum_keys categoryDomain r]> r).
  split; [|split; [|split]].
  - change (map ?f ?l) with (f <$> l) at 1.
    by rewrite list_lookup_fmap, Hr.
  - by rewrite lookup_insert_ne.
  - intros k Hk. rewrite lookup_insert_ne; [|by intros <-].
    by rewrite (Hrk k Hk).
  - rewrite lookup_insert_eq. f_equal. unfold sum_keys.
    rewrite (sum_keys_zsum (fun k => site_count ByCategory y k data) r
               categoryDomain 0 Hrk).
    f_equal. by apply zsum_site_count.
Qed.

Lemma stacked_by_category_end_to_end_witness :
  exists record,
    (prepareStackData ByCategory [] (1999, 1999)
       (getFilteredSites (init_sites [Sample.raw "1999" None])
          (Sample.state ∅ None))).2 !! 0%nat = Some record
    ∧ record !! "year" = Some (VNum 1999)
    ∧ (forall k, k ∈ categoryDomain ->
         record !! k
         = Some (VNum (site_count ByCategory 1999 k
                         (getFilteredSites (init_sites [Sample.raw "1999" None])
                            (Sample.state ∅ None)))))
    ∧ record !! "total"
      = Some (VNum (Z.of_nat
                      (length (List.filter (fun s => (year s =? 1999)%Z)
                                 (getFilteredSites
                                    (init_sites [Sample.raw "1999" None])
                                    (Sample.state ∅ None)))))).
Proof.
  apply (stacked_by_category_end_to_end [Sample.raw "1999" None]
           (Sample.state ∅ None) [] (1999, 1999) 0 1999).
  reflexivity.
Defined.

(** ** Criteria text: writing and parsing *)

Section CriteriaRoundTrip.

Local Abbreviation here :=
  (fun s => (fun m => (m, String.length m)) <$> Text.criterion_here s).

Lemma length_append (a b : string) :
  String.length (a ++ b) = (String.length a + String.length b)%nat.
Proof.
  induction a as [|c a IH]; [done|].
  change (String c a ++ b) with (String c (a ++ b)). simpl. by rewrite IH.
Qed.

(** Skipping as many characters as a prefix has resumes behind it. *)
Lemma scan_skip {A} (h : string -> option (A * nat)) x rest :
  Text.scan h (String.length x) (x ++ rest) = Text.scan h 0 rest.
Proof.
  induction x as [|c x IH]; [done|].
  change (String c x ++ rest) with (String c (x ++ rest)). apply IH.
Qed.

(** Text without an opening parenthesis holds no match. *)
Lemma scan_separator sep rest :
  Forall (fun ch => ch ≠ "("%char) (list_ascii_of_string sep) ->
  Text.scan here 0 (sep ++ rest) = Text.scan here 0 rest.
Proof.
  induction sep as [|c sep IH]; [done|]. cbn [list_ascii_of_string].
  intros [Hc Hsep]%Forall_cons.
  change (String c sep ++ rest) with (String c (sep ++ rest)).
  cbn [Text.scan].
  assert (Hnone : Text.criterion_here (String c (sep ++ rest)) = None).
  { unfold Text.criterion_here.
    destruct c as [[] [] [] [] [] [] [] []]; done. }
  rewrite Hnone. cbn [fmap option_fmap option_map]. by apply IH.
Qed.

Lemma span_ivx_word w rest :
  Forall (fun ch => Text.is_ivx ch = true) (list_ascii_of_string w) ->
  Text.span Text.is_ivx (w ++ String ")" rest) = (w, String ")" rest).
Proof.
  induction w as [|c w IH]; [done|]. cbn [list_ascii_of_string].
  intros [Hc Hw]%Forall_cons.
  change (String c w ++ ?t) with (String c (w ++ t)). cbn [Text.span].
  by rewrite Hc, IH.
Qed.

Lemma criterion_here_word w rest :
  ivx_word w ->
  Text.criterion_here (String "(" (w ++ String ")" rest))
  = Some (String "(" (w ++ ")")).
Proof.
  intros [Hne Hw]. unfold Text.criterion_here.
  rewrite span_ivx_word by done. by destruct w.
Qed.

Lemma scan_word w rest :
  ivx_word w ->
  Text.scan here 0 (String "(" (w ++ String ")" rest))
  = String "(" (w ++ ")") :: Text.scan here 0 rest.
Proof.
  intros Hw. cbn [Text.scan]. rewrite criterion_here_word by done.
  cbn [fmap option_fmap option_map]. f_equal.
  assert (Hlen : (String.length (String "(" (w ++ ")")) - 1)%nat
                 = String.length (w ++ ")")) by (simpl; lia).
  rewrite Hlen.
  replace (w ++ String ")" rest) with ((w ++ ")") ++ rest).
  - apply scan_skip.
  - by rewrite append_assoc.
Qed.

Lemma scan_criteria_text sep words :
  Forall (fun ch => ch ≠ "("%char) (list_ascii_of_string sep) ->
  Forall ivx_word words ->
  Text.scan here 0 (criteria_text sep words)
  = map (fun w => String "(" (w ++ ")")) words.
Proof.
  intros Hsep. induction 1 as [|w words Hw Hwords IH]; [done|].
  cbn [criteria_text foldr map]. fold (criteria_text sep words).
  rewrite scan_separator by done.
  change ("(" ++ w ++ ")" ++ criteria_text sep words)
    with (String "(" (w ++ String ")" (criteria_text sep words))).
  by rewrite scan_word, IH.
Qed.

End CriteriaRoundTrip.

(** X23.  Parsing reads back what was written: for words over i, v, x
    (in either case) written in parentheses, each behind a separator
    without an opening parenthesis, [parseCriteria] returns the words in
    lower case, in their order. *)
Theorem parseCriteria_reads_written (sep : string) (words : list string) :
  Forall (fun ch => ch ≠ "("%char) (list_ascii_of_string sep) ->
  Forall ivx_word words ->
  parseCriteria (Some (criteria_text sep words)) = map Text.toLowerCase words.
Proof.
  intros Hsep Hwords. unfold parseCriteria.
  destruct (truthy (Some (criteria_text sep words))) eqn:Ht; cbn [negb].
  - change (default "" (Some (criteria_text sep words)))
      with (criteria_text sep words).
    rewrite scan_criteria_text by done.
    rewrite map_map. apply map_ext_in. intros w Hw%list_elem_of_In.
    rewrite Forall_forall in Hwords. destruct (Hwords w Hw) as [_ Hivx].
    by rewrite strip_parens_ivx.
  - destruct words as [|w words]; [done|].
    exfalso. cbn [criteria_text foldr truthy] in Ht.
    destruct sep; discriminate Ht.
Qed.

Lemma parseCriteria_reads_written_witness :
  parseCriteria (Some (criteria_text " " ["i"; "IV"; "x"])) = ["i"; "iv"; "x"].
Proof.
  apply (parseCriteria_reads_written " " ["i"; "IV"; "x"]).
  - repeat constructor; discriminate.
  - repeat constructor; discriminate.
Defined.

Section SearchCountry.


End SearchCountry.



Lemma uniqueRegions_spec_witness :
  groupingKey ByRegion (Sample.site []) ∈ uniqueRegions [Sample.site []].
Proof.
  apply (proj2 (proj2 (uniqueRegions_spec [Sample.site []])) (Sample.site [])).
  left.
Defined.
